(** * pipeline_backup: spec-file parsing and package mirroring

    A shallow embedding of [pipeline_backup.py]: the [PipelineSpec] reader
    (with its [replace] substitution) and the [Backup] engine
    ([_determine_local_path], [_download], [run]), together with the small
    part of Python's [str], [os.path] and file-system behaviour they use. *)

From Stdlib Require Import Ascii String List Arith NArith Lia Bool Sorted.
From stdpp Require Import base decidable option list gmap strings.
Import ListNotations.
Local Open Scope string_scope.
Local Open Scope list_scope.

(** Python [str] values are lists of characters; a character stands for a
    code point below 256.  String literals are read through the coercion. *)
Abbreviation str := (list ascii).
Coercion list_ascii_of_string : string >-> list.

Abbreviation bytes := (list Byte.byte).

Global Instance byte_eq_dec : EqDecision Byte.byte := Byte.byte_eq_dec.

(** ** Python string methods *)
Module Py.

Definition newline : ascii := "010"%char.

(** [s.startswith(prefix)] *)
Fixpoint startswith (prefix s : str) : bool :=
  match prefix, s with
  | [], _ => true
  | _ :: _, [] => false
  | p :: prefix', c :: s' => bool_decide (p = c) && startswith prefix' s'
  end.

(** [s.split(sep)] for a one-character separator. *)
Fixpoint split (sep : ascii) (s : str) : list str :=
  match s with
  | [] => [[]]
  | c :: rest =>
      if decide (c = sep) then [] :: split sep rest
      else match split sep rest with
           | part :: parts => (c :: part) :: parts
           | [] => [[c]]
           end
  end.

(** [sep.join(parts)] *)
Fixpoint join_with (sep : str) (parts : list str) : str :=
  match parts with
  | [] => []
  | [p] => p
  | p :: rest => p ++ sep ++ join_with sep rest
  end.

(** [s[b:e]] for non-negative indices. *)
Definition slice (b e : nat) (s : str) : str := take (e - b) (drop b s).

(** [str.isspace] on one character: TAB..CR, FS..US, space, NEL, NBSP. *)
Definition isspace (c : ascii) : bool :=
  let n := nat_of_ascii c in
  ((9 <=? n)%nat && (n <=? 13)%nat) || ((28 <=? n)%nat && (n <=? 32)%nat)
  || (n =? 133)%nat || (n =? 160)%nat.

Fixpoint lstrip (s : str) : str :=
  match s with
  | [] => []
  | c :: rest => if isspace c then lstrip rest else s
  end.

Definition rstrip (s : str) : str := rev (lstrip (rev s)).

(** [s.strip()] *)
Definition strip (s : str) : str := rstrip (lstrip s).

(** [s.replace(old, new)] for a non-empty [old]: scan from the left; at an
    occurrence emit [new] and skip over it ([skip] counts the characters of
    the occurrence still to pass). *)
Fixpoint replace_from (old new : str) (skip : nat) (s : str) : str :=
  match s with
  | [] => []
  | c :: rest =>
      match skip with
      | S k => replace_from old new k rest
      | O => if startswith old s
             then new ++ replace_from old new (length old - 1) rest
             else c :: replace_from old new 0 rest
      end
  end.

(** [s.replace(old, new)]: every non-overlapping occurrence, leftmost
    first; an empty [old] matches before every character and at the end. *)
Definition replace (s old new : str) : str :=
  match old with
  | [] => new ++ flat_map (fun c => c :: new) s
  | _ :: _ => replace_from old new 0 s
  end.

(** [s.replace(old, new, 1)]: the first occurrence only. *)
Fixpoint replace_first (s old new : str) : str :=
  if startswith old s then new ++ drop (length old) s
  else match s with
       | [] => []
       | c :: rest => c :: replace_first rest old new
       end.

(** Iterating over a text file, on the text as the text layer delivers it
    (every line end is a newline character): the lines, each with its line
    end. *)
Fixpoint readlines (text : str) : list str :=
  match text with
  | [] => []
  | c :: rest =>
      if decide (c = newline) then [c] :: readlines rest
      else match readlines rest with
           | line :: lines => (c :: line) :: lines
           | [] => [[c]]
           end
  end.

End Py.

(** ** Exceptions *)
Inductive exn :=
| PipelineSpecError (msg : str)
| ValueError (msg : str)
| AttributeError (attr : str)
| HTTPError (code : nat)
| URLError (reason : str)
| OSError (msg : str).

Global Instance exn_eq_dec : EqDecision exn.
Proof. solve_decision. Defined.

(** What [except HTTPError] catches; [except Exception] catches the rest. *)
Definition is_HTTPError (e : exn) : bool :=
  match e with HTTPError _ => true | _ => false end.

Inductive result (A : Type) :=
| Return (a : A)
| Raise (e : exn).
Arguments Return {A} a.
Arguments Raise {A} e.

(** ** class PipelineSpec *)
Module PipelineSpec.

Record t := { filename : str; data : list str }.

(** [verify]: the first line starting with the marker ends the scan. *)
Fixpoint verify_lines (lines : list str) : bool :=
  match lines with
  | [] => false
  | line :: rest =>
      if Py.startswith "@EXPLICIT" line then true else verify_lines rest
  end.

Definition verify (text : str) : bool := verify_lines (Py.readlines text).

(** One iteration of the reading loop of [_read]. *)
Definition read_line (data : list str) (line : str) : list str :=
  let line := Py.strip line in
  if bool_decide (line = []) || Py.startswith "#" line || Py.startswith "@" line
  then data
  else data ++ [line].

(** [_read], on the text of the file [fname] (the file opens both times
    and yields the same text). *)
Definition _read (fname text : str) : result (list str) :=
  if negb (verify text)
  then Raise (PipelineSpecError ("Invalid spec file: " ++ fname))
  else Return (fold_left read_line (Py.readlines text) []).

(** [PipelineSpec(filename)] *)
Definition init (fname text : str) : result t :=
  match _read fname text with
  | Return d => Return {| filename := fname; data := d |}
  | Raise e => Raise e
  end.

(** The inner loop of [replace]: the new value of the record when some
    part equals [old] (then [break]), nothing otherwise. *)
Fixpoint scan_parts (record old new : str) (parts : list str) : option str :=
  match parts with
  | [] => None
  | part :: rest =>
      if decide (part = old) then Some (Py.replace record old new)
      else scan_parts record old new rest
  end.

(** The outer loop of [replace]: [n] iterations are left, the next index
    is [idx]; the record is read from the list as it is now. *)
Fixpoint replace_loop (n idx : nat) (old new : str) (data : list str)
  : list str :=
  match n with
  | O => data
  | S n' =>
      match data !! idx with
      | None => data
      | Some record =>
          let data' :=
            match scan_parts record old new (Py.split "/" record) with
            | Some r => <[idx := r]> data
            | None => data
            end in
          replace_loop n' (S idx) old new data'
      end
  end.

Definition replace (self : t) (old new : str) : t :=
  {| filename := filename self;
     data := replace_loop (length (data self)) 0 old new (data self) |}.

(** [replace] as the specification words it, not as the code has it: in a
    record with [old] as a part, only the first occurrence of [old] in the
    string is substituted. *)
Definition replace_first_only (self : t) (old new : str) : t :=
  {| filename := filename self;
     data := map (fun record =>
                    if decide (old ∈ Py.split "/" record)
                    then Py.replace_first record old new
                    else record) (data self) |}.

End PipelineSpec.

(** ** os.path (POSIX) *)
Module os_path.

Definition curdir : str := ".".
Definition pardir : str := "..".

Definition endswith_sep (a : str) : bool :=
  match last a with
  | Some c => bool_decide (c = "/"%char)
  | None => false
  end.

(** [os.path.join(a, b)] *)
Definition join (a b : str) : str :=
  if Py.startswith "/" b then b
  else if bool_decide (a = []) || endswith_sep a then a ++ b
  else a ++ "/" ++ b.

(** [p.rfind('/') + 1], scanning from index [i] with [found] the value so
    far (0 when there is no separator). *)
Fixpoint rfind_sep1 (i : nat) (p : str) (found : nat) : nat :=
  match p with
  | [] => found
  | c :: rest =>
      rfind_sep1 (S i) rest (if decide (c = "/"%char) then S i else found)
  end.

(** [os.path.basename(p)] *)
Definition basename (p : str) : str := drop (rfind_sep1 0 p 0) p.

(** One component of the loop of [normpath]. *)
Definition norm_step (initial_slashes : nat) (new_comps : list str)
  (comp : str) : list str :=
  if bool_decide (comp = []) || bool_decide (comp = curdir) then new_comps
  else if negb (bool_decide (comp = pardir))
          || (bool_decide (initial_slashes = 0) && bool_decide (new_comps = []))
          || (negb (bool_decide (new_comps = []))
              && bool_decide (last new_comps = Some pardir))
  then new_comps ++ [comp]
  else if negb (bool_decide (new_comps = [])) then removelast new_comps
  else new_comps.

(** [os.path.normpath(path)] *)
Definition normpath (path : str) : str :=
  match path with
  | [] => curdir
  | _ :: _ =>
      let initial_slashes :=
        if Py.startswith "/" path
        then if Py.startswith "//" path && negb (Py.startswith "///" path)
             then 2 else 1
        else 0 in
      let comps := Py.split "/" path in
      let comps := fold_left (norm_step initial_slashes) comps [] in
      let path := Py.join_with "/" comps in
      let path := repeat "/"%char initial_slashes ++ path in
      match path with
      | [] => curdir
      | _ :: _ => path
      end
  end.

End os_path.

(** ** The file system

    A map from normalized paths to nodes.  The roots and the paths made of
    [.] and [..] only are directories that are always there.  A path
    resolves when every proper ancestor is a directory. *)
Inductive node :=
| Dir
| File (content : bytes).

Global Instance node_eq_dec : EqDecision node.
Proof. solve_decision. Defined.

Module FS.

Abbreviation t := (gmap str node).

Definition implicit_dir (q : str) : bool :=
  forallb (fun c => bool_decide (c = []) || bool_decide (c = os_path.curdir)
                    || bool_decide (c = os_path.pardir))
          (Py.split "/" q).

Definition lookup_node (fs : t) (q : str) : option node :=
  if implicit_dir q then Some Dir else fs !! q.

Definition is_dir (n : option node) : bool :=
  match n with Some Dir => true | _ => false end.

(** The non-empty proper prefixes of [comps], shortest first, given the
    components [pre] already passed. *)
Fixpoint prefixes (pre comps : list str) : list (list str) :=
  match comps with
  | [] => []
  | [_] => []
  | c :: rest => (pre ++ [c]) :: prefixes (pre ++ [c]) rest
  end.

(** The proper ancestors of a normalized path, outermost first. *)
Definition ancestors (q : str) : list str :=
  filter (fun a => a ≠ []) (map (Py.join_with "/") (prefixes [] (Py.split "/" q))).

Definition ancestors_are_dirs (fs : t) (q : str) : bool :=
  forallb (fun a => is_dir (lookup_node fs a)) (ancestors q).

(** What [stat] finds at path [p]. *)
Definition resolve (fs : t) (p : str) : option node :=
  let q := os_path.normpath p in
  if ancestors_are_dirs fs q then lookup_node fs q else None.

(** [os.path.exists(p)] *)
Definition exists_ (fs : t) (p : str) : bool :=
  bool_decide (is_Some (resolve fs p)).

(** [mkdir] along a chain of paths: a directory that is there is kept, a
    file in the way is an error. *)
Fixpoint mkdir_chain (fs : t) (chain : list str) : result t :=
  match chain with
  | [] => Return fs
  | q :: rest =>
      match lookup_node fs q with
      | Some Dir => mkdir_chain fs rest
      | Some (File _) => Raise (OSError "Not a directory")
      | None => mkdir_chain (<[q := Dir]> fs) rest
      end
  end.

(** [os.makedirs(p)] *)
Definition makedirs (fs : t) (p : str) : result t :=
  let q := os_path.normpath p in
  if exists_ fs p then Raise (OSError "File exists")
  else mkdir_chain fs (ancestors q ++ [q]).

(** [open(p, 'w+b')]: the file is created or truncated. *)
Definition open_wb (fs : t) (p : str) : result t :=
  let q := os_path.normpath p in
  if negb (ancestors_are_dirs fs q) then Raise (OSError "No such file or directory")
  else if is_dir (lookup_node fs q) then Raise (OSError "Is a directory")
  else Return (<[q := File []]> fs).

(** [fp.write(chunk)] on the file opened at [p]. *)
Definition write (fs : t) (p : str) (chunk : bytes) : t :=
  let q := os_path.normpath p in
  match fs !! q with
  | Some (File content) => <[q := File (content ++ chunk)]> fs
  | _ => fs
  end.

End FS.

(** ** The remote side

    A response delivers its body in segments: a read returns the bytes of
    the current segment, at most the amount asked for.  When the segments
    are used up, a read returns no bytes (the end of the stream), or raises
    the fault of the response when it has one. *)
Record response := { segments : list bytes; fault : option exn }.

Definition read (data : response) (amt : N) : result (bytes * response) :=
  match segments data with
  | [] =>
      match fault data with
      | Some e => Raise e
      | None => Return ([], data)
      end
  | seg :: rest =>
      if (N.of_nat (length seg) <=? amt)%N
      then Return (seg, {| segments := rest; fault := fault data |})
      else Return (take (N.to_nat amt) seg,
                   {| segments := drop (N.to_nat amt) seg :: rest;
                      fault := fault data |})
  end.

(** The reads left in a response are bounded by this measure. *)
Definition response_size (data : response) : nat :=
  length (concat (segments data)) + length (segments data).

(** ** class Backup *)
Record Stats := {
  read_ : N;
  written : N;
  success : nat;
  skipped : nat;
  fatal : list (str * exn);
  fail : list (str * exn);
}.

(** What a run does, in order: the reads and writes of the transfers, and
    the statistics after each update. *)
Inductive event :=
| EvRead (amt : N) (chunk : bytes)
| EvWrite (path : str) (chunk : bytes)
| EvStats (s : Stats).

(** The world of a run: the file system, the free space of the disk in
    bytes, and the log. *)
Record world := { fs : gmap str node; free : N; log : list event }.

Module Backup.

Record t := {
  block_size : N;
  destination : str;
  data : list str;
  stats : Stats;
  verbose : option bool;   (* not set by [__init__] *)
}.

(** [Backup(data, destination)] *)
Definition init (data : list str) (destination : str) : t :=
  {| block_size := 0xFFFF;
     destination := os_path.normpath destination;
     data := data;
     stats := {| read_ := 0; written := 0; success := 0; skipped := 0;
                 fatal := []; fail := [] |};
     verbose := None |}.

(** [backup.verbose = v] *)
Definition set_verbose (v : bool) (self : t) : t :=
  {| block_size := block_size self; destination := destination self;
     data := data self; stats := stats self; verbose := Some v |}.

Definition add_read (n : nat) (s : Stats) : Stats :=
  {| read_ := read_ s + N.of_nat n; written := written s; success := success s;
     skipped := skipped s; fatal := fatal s; fail := fail s |}.
Definition add_written (n : nat) (s : Stats) : Stats :=
  {| read_ := read_ s; written := written s + N.of_nat n; success := success s;
     skipped := skipped s; fatal := fatal s; fail := fail s |}.
Definition add_success (s : Stats) : Stats :=
  {| read_ := read_ s; written := written s; success := success s + 1;
     skipped := skipped s; fatal := fatal s; fail := fail s |}.
Definition add_skipped (s : Stats) : Stats :=
  {| read_ := read_ s; written := written s; success := success s;
     skipped := skipped s + 1; fatal := fatal s; fail := fail s |}.
Definition add_fatal (url : str) (reason : exn) (s : Stats) : Stats :=
  {| read_ := read_ s; written := written s; success := success s;
     skipped := skipped s; fatal := fatal s ++ [(url, reason)];
     fail := fail s |}.
Definition add_fail (url : str) (reason : exn) (s : Stats) : Stats :=
  {| read_ := read_ s; written := written s; success := success s;
     skipped := skipped s; fatal := fatal s;
     fail := fail s ++ [(url, reason)] |}.

(** An update of [self.stats], entered in the log. *)
Definition update (f : Stats -> Stats) (st : Stats * world) : Stats * world :=
  let s := f (fst st) in
  (s, {| fs := fs (snd st); free := free (snd st);
         log := log (snd st) ++ [EvStats s] |}).

Definition emit (e : event) (w : world) : world :=
  {| fs := fs w; free := free w; log := log w ++ [e] |}.

Definition set_fs (f : gmap str node) (w : world) : world :=
  {| fs := f; free := free w; log := log w |}.

(** [fp.write(chunk)] on the file opened at [p], when the disk has room
    for the chunk. *)
Definition write_chunk (p : str) (chunk : bytes) (w : world) : world :=
  {| fs := FS.write (fs w) p chunk;
     free := free w - N.of_nat (length chunk);
     log := log w ++ [EvWrite p chunk] |}.

Definition set_stats (s : Stats) (self : t) : t :=
  {| block_size := block_size self; destination := destination self;
     data := data self; stats := s; verbose := verbose self |}.

(** The loop over the characters of [record] collecting the indices of
    the separators. *)
Fixpoint scan_markers (i : nat) (record : str) (markers : list nat)
  : list nat :=
  match record with
  | [] => markers
  | ch :: rest =>
      scan_markers (S i) rest
        (if decide (ch = "/"%char) then markers ++ [i] else markers)
  end.

Definition _determine_local_path (self : t) (record : str)
  : result (str * str) :=
  let filename := os_path.basename record in
  let markers := scan_markers 0 record [] in
  let markers_len := length markers in
  if (markers_len <? 3)%nat then Raise (ValueError "Invalid URL part length")
  else
    let begin := nth (markers_len - 3) markers 0 + 1 in
    let end_ := nth (markers_len - 1) markers 0 in
    let local_path :=
      os_path.normpath
        (os_path.join (destination self) (Py.slice begin end_ record)) in
    Return (local_path, filename).

(** The [while chunk:] loop of [_download].  The result is the exception
    raised inside it, if any.  [fuel] bounds the iterations; the fuel given
    by [_download] is never used up ([transfer_unfold]). *)
Fixpoint transfer_loop (fuel : nat) (block_size : N) (fullpath : str)
  (data : response) (chunk : bytes) (st : Stats * world)
  : option exn * (Stats * world) :=
  match fuel with
  | O => (None, st)
  | S fuel' =>
      match chunk with
      | [] => (None, st)
      | _ :: _ =>
          (* fp.write(chunk) *)
          if (free (snd st) <? N.of_nat (length chunk))%N
          then (Some (OSError "No space left on device"), st)
          else
            let st := (fst st, write_chunk fullpath chunk (snd st)) in
            let st := update (add_written (length chunk)) st in
            (* chunk = data.read(block_size) *)
            match read data block_size with
            | Raise e => (Some e, st)
            | Return (chunk', data') =>
                let st := (fst st, emit (EvRead block_size chunk') (snd st)) in
                let st := update (add_read (length chunk')) st in
                transfer_loop fuel' block_size fullpath data' chunk' st
            end
      end
  end.

Definition transfer (block_size : N) (fullpath : str) (data : response)
  (chunk : bytes) (st : Stats * world) : option exn * (Stats * world) :=
  transfer_loop (response_size data + 2) block_size fullpath data chunk st.

Section Download.

(** The network: what [urlopen(url)] gives. *)
Variable urlopen : str -> result response.

(** The body of the [try] statement of [_download]; the result is the
    exception raised inside it, if any. *)
Definition try_body (self : t) (url fullpath : str) (w : world)
  : option exn * (Stats * world) :=
  let st := (stats self, w) in
  match urlopen url with
  | Raise e => (Some e, st)
  | Return data =>
      match FS.open_wb (fs w) fullpath with
      | Raise e => (Some e, st)
      | Return fs' =>
          let st := (stats self, set_fs fs' w) in
          match verbose self with
          | None => (Some (AttributeError "verbose"), st)
          | Some _ =>
              match read data (block_size self) with
              | Raise e => (Some e, st)
              | Return (chunk, data') =>
                  let st := (fst st, emit (EvRead (block_size self) chunk) (snd st)) in
                  let st := update (add_read (length chunk)) st in
                  transfer (block_size self) fullpath data' chunk st
              end
          end
      end
  end.

(** How the statement after the directory test goes on. *)
Inductive precheck :=
| Propagate (e : exn)
| Skip
| Proceed (fs' : gmap str node).

Definition check_paths (f : gmap str node) (dirpath fullpath : str)
  : precheck :=
  if negb (FS.exists_ f dirpath) then
    match FS.makedirs f dirpath with
    | Raise e => Propagate e
    | Return f' => Proceed f'
    end
  else if FS.exists_ f fullpath then Skip
  else Proceed f.

Definition _download (self : t) (url : str) (w : world)
  : result unit * (t * world) :=
  match _determine_local_path self url with
  | Raise e => (Raise e, (self, w))
  | Return (path, filename) =>
      let dirpath := os_path.join (destination self) path in
      let fullpath := os_path.join dirpath filename in
      match check_paths (fs w) dirpath fullpath with
      | Propagate e => (Raise e, (self, w))
      | Skip =>
          let '(s, w) := update add_skipped (stats self, w) in
          (Return tt, (set_stats s self, w))
      | Proceed fs' =>
          let '(exc, st) := try_body self url fullpath (set_fs fs' w) in
          match exc with
          | Some reason =>
              if is_HTTPError reason then
                let '(s, w) := update (add_fail url reason) st in
                (Return tt, (set_stats s self, w))
              else
                let st := update (add_fatal url reason) st in
                let '(s, w) := update add_success st in
                (Return tt, (set_stats s self, w))
          | None =>
              let '(s, w) := update add_success st in
              (Return tt, (set_stats s self, w))
          end
      end
  end.

(** The loop of [run] over the locators [urls]. *)
Fixpoint run_urls (urls : list str) (self : t) (w : world)
  : result unit * (t * world) :=
  match urls with
  | [] => (Return tt, (self, w))
  | url :: rest =>
      match _download self url w with
      | (Raise e, sw) => (Raise e, sw)
      | (Return _, (self', w')) => run_urls rest self' w'
      end
  end.

Definition run (self : t) (w : world) : result unit * (t * world) :=
  run_urls (data self) self w.

End Download.

End Backup.

(** ** Notions used to state the properties *)

(** The number of separators in a locator. *)
Definition count_sep (s : str) : nat :=
  length (filter (fun c => c = "/"%char) s).

(** A locator line kept by the reader. *)
Definition locator_line (line : str) : Prop :=
  line ≠ [] ∧ Py.startswith "#" line = false ∧ Py.startswith "@" line = false.

Global Instance locator_line_dec line : Decision (locator_line line).
Proof. unfold locator_line. apply _. Defined.

(** What [PipelineSpec.replace] does to one record. *)
Definition substitute (old new record : str) : str :=
  if decide (old ∈ Py.split "/" record)
  then Py.replace record old new
  else record.

(** The fuel that the transfer loop needs at most. *)
Definition loop_fuel (data : response) (chunk : bytes) : nat :=
  match chunk with
  | [] => 1
  | _ :: _ => response_size data + 2
  end.

(** The course of one transfer, from the statistics [s] on: a read of
    [bs] bytes and the update of [read], then either the end (the chunk is
    empty), or the write of the chunk to [p], the update of [written] and
    the rest of the transfer; a read or a write that raises ends it. *)
Inductive chunked (bs : N) (p : str)
  : Stats -> list event -> option exn -> Stats -> Prop :=
| chunked_eof s :
    chunked bs p s [EvRead bs []; EvStats (Backup.add_read 0 s)] None
      (Backup.add_read 0 s)
| chunked_read_error s e :
    chunked bs p s [] (Some e) s
| chunked_write_error s chunk e :
    chunk <> [] ->
    (N.of_nat (length chunk) <= bs)%N ->
    chunked bs p s [EvRead bs chunk; EvStats (Backup.add_read (length chunk) s)]
      (Some e) (Backup.add_read (length chunk) s)
| chunked_chunk s chunk tr exc s' :
    chunk <> [] ->
    (N.of_nat (length chunk) <= bs)%N ->
    chunked bs p
      (Backup.add_written (length chunk) (Backup.add_read (length chunk) s))
      tr exc s' ->
    chunked bs p s
      (EvRead bs chunk
       :: EvStats (Backup.add_read (length chunk) s)
       :: EvWrite p chunk
       :: EvStats (Backup.add_written (length chunk)
                     (Backup.add_read (length chunk) s))
       :: tr) exc s'.

(** The same from the loop test on, with [chunk] read and counted. *)
Definition chunked_tail (bs : N) (p : str) (chunk : bytes) (s : Stats)
  (tr : list event) (exc : option exn) (s' : Stats) : Prop :=
  match chunk with
  | [] => tr = [] /\ exc = None /\ s' = s
  | _ :: _ =>
      (exists e, tr = [] /\ exc = Some e /\ s' = s)
      \/ exists tr',
        tr = EvWrite p chunk :: EvStats (Backup.add_written (length chunk) s) :: tr'
        /\ chunked bs p (Backup.add_written (length chunk) s) tr' exc s'
  end.

(** [written <= read], on statistics and on the entries of the log. *)
Definition balanced (s : Stats) : Prop := (written s <= read_ s)%N.

Definition balanced_event (e : event) : Prop :=
  match e with
  | EvStats s => balanced s
  | _ => True
  end.

(** The file system only grows: directories stay directories and what is
    there stays there. *)
Definition fs_le (f f' : gmap str node) : Prop :=
  forall q,
    (FS.lookup_node f q = Some Dir -> FS.lookup_node f' q = Some Dir)
    /\ (is_Some (FS.lookup_node f q) -> is_Some (FS.lookup_node f' q)).

(** The paths of [_download] for a locator. *)
Definition dirpath_of (self : Backup.t) (path : str) : str :=
  os_path.join (Backup.destination self) path.

Definition fullpath_of (self : Backup.t) (path filename : str) : str :=
  os_path.join (dirpath_of self path) filename.

(** The locator resolves and its directory and file are there. *)
Definition mirrored (f : gmap str node) (self : Backup.t) (url : str) : Prop :=
  exists path filename,
    Backup._determine_local_path self url = Return (path, filename)
    /\ FS.exists_ f (dirpath_of self path) = true
    /\ FS.exists_ f (fullpath_of self path filename) = true.

(** The attributes of a [Backup] that a run leaves alone. *)
Definition same_config (self self' : Backup.t) : Prop :=
  Backup.block_size self' = Backup.block_size self
  /\ Backup.destination self' = Backup.destination self
  /\ Backup.data self' = Backup.data self
  /\ Backup.verbose self' = Backup.verbose self.

(** What a run over the locators [urls] from [(self, w)] to [(self', w')]
    with result [r] does: the log and the file system grow, [written <=
    read] is kept at every update, the lists [fail] and [fatal] grow, and
    when they did not, the bytes read were written and the locators passed
    are on the disk. *)
Definition run_effect (urls : list str) (self : Backup.t) (w : world)
  (r : result unit) (self' : Backup.t) (w' : world) : Prop :=
  same_config self self'
  /\ exists tr,
      log w' = log w ++ tr
      /\ fs_le (fs w) (fs w')
      /\ (balanced (Backup.stats self) ->
          Forall balanced_event tr /\ balanced (Backup.stats self'))
      /\ (exists l, fail (Backup.stats self') = fail (Backup.stats self) ++ l)
      /\ (exists l, fatal (Backup.stats self') = fatal (Backup.stats self) ++ l)
      /\ (fail (Backup.stats self') = fail (Backup.stats self) ->
          fatal (Backup.stats self') = fatal (Backup.stats self) ->
          (written (Backup.stats self) = read_ (Backup.stats self) ->
           written (Backup.stats self') = read_ (Backup.stats self'))
          /\ (r = Return tt -> Forall (mirrored (fs w') self) urls)).

(** ** Concrete servers and disks *)

Definition pkg_url : str := "http://x/y/z/w/pkg.tar".

(** A server that delivers four bytes in two segments. *)
Definition net_ok (url : str) : result response :=
  Return {| segments := [[Byte.x00; Byte.x01; Byte.x02]; [Byte.x03]];
            fault := None |}.

(** A server that answers every request with the status 404. *)
Definition net_404 (url : str) : result response := Raise (HTTPError 404).

(** A host that refuses the connection. *)
Definition net_refused (url : str) : result response :=
  Raise (URLError "Connection refused").

Definition empty_disk : world := {| fs := ∅; free := 1000000; log := [] |}.

(** The disk after the command line has made the directory [backup]. *)
Definition disk_with_backup : world :=
  {| fs := {[ ("backup" : str) := Dir ]}; free := 1000000; log := [] |}.

(** A disk on which the directory of [pkg_url] under [/root] is there. *)
Definition disk_with_dirs : world :=
  {| fs := <[ ("/root/z/w" : str) := Dir ]>
             (<[ ("/root/z" : str) := Dir ]> (<[ ("/root" : str) := Dir ]> ∅));
     free := 1000000; log := [] |}.

(** Equal lists up to the bracketing of [++]. *)
Ltac reassoc :=
  repeat first [rewrite <- app_assoc | progress cbn [app]]; done.

(** ** Notions for the further properties *)

(** The locators that a run has dealt with, as the statistics count them. *)
Definition processed (s : Stats) : nat :=
  success s + skipped s + length (fail s).

(** The counters that a transfer leaves alone. *)
Definition counters_kept (s s1 : Stats) : Prop :=
  success s1 = success s /\ skipped s1 = skipped s
  /\ fatal s1 = fatal s /\ fail s1 = fail s.

(** [fail] holds HTTP errors only and [fatal] none. *)
Definition classified (s : Stats) : Prop :=
  Forall (fun ue : str * exn => is_HTTPError (snd ue) = true) (fail s)
  /\ Forall (fun ue : str * exn => is_HTTPError (snd ue) = false) (fatal s).

(** The bytes that a response delivers. *)
Definition body (data : response) : bytes := concat (segments data).

(** The directories that [os.makedirs] may make for [dirpath]. *)
Definition chain_of (dirpath : str) : list str :=
  FS.ancestors (os_path.normpath dirpath) ++ [os_path.normpath dirpath].


(** A disk on which a file stands where [pkg_url] needs a directory. *)
Definition disk_with_blocker : world :=
  {| fs := <[ ("/root/z" : str) := File [] ]> (<[ ("/root" : str) := Dir ]> ∅);
     free := 1000000; log := [] |}.


(** ** fnmatch, [PipelineSpec.search] and the command line *)
Module fnmatch.

(** [f] holds of the name or of what is left of it after some characters. *)
Fixpoint any_suffix (f : str -> bool) (name : str) : bool :=
  f name
  || match name with
     | [] => false
     | _ :: rest => any_suffix f rest
     end.

(** A pattern without bracket expression against a whole name, as the
    regular expression of [translate] matches: [*] stands for any run of
    characters, [?] for one character, every other character for itself. *)
Fixpoint glob (pat : str) : str -> bool :=
  match pat with
  | [] => fun name => bool_decide (name = [])
  | c :: pat' =>
      if decide (c = "*"%char) then any_suffix (glob pat')
      else fun name =>
             match name with
             | [] => false
             | d :: rest =>
                 (bool_decide (c = "?"%char) || bool_decide (c = d))
                 && glob pat' rest
             end
  end.

(** [fnmatch.fnmatch(name, pat)] on POSIX, where [normcase] changes
    nothing.  What a pattern with a [[] matches is left to [bracket]. *)
Definition fnmatch (bracket : str -> str -> bool) (name pat : str) : bool :=
  if bool_decide ("["%char ∈ pat) then bracket name pat else glob pat name.

End fnmatch.

(** [PipelineSpec.search]: the records that the generator yields, in the
    order in which it yields them. *)
Fixpoint search_records (bracket : str -> str -> bool) (records : list str)
  (pattern : str) : list str :=
  match records with
  | [] => []
  | record :: rest =>
      if fnmatch.fnmatch bracket record pattern
      then record :: search_records bracket rest pattern
      else search_records bracket rest pattern
  end.

Definition search (bracket : str -> str -> bool) (self : PipelineSpec.t)
  (pattern : str) : list str :=
  search_records bracket (PipelineSpec.data self) pattern.

(** The part of the command line that gathers the locators. *)
Module Main.

(** [for pattern in args.replace_pattern: old, new = pattern;
    pspec.replace(old, new)]; a pattern is the list of the values given to
    one [--replace-pattern]. *)
Fixpoint apply_patterns (pspec : PipelineSpec.t) (patterns : list (list str))
  : result PipelineSpec.t :=
  match patterns with
  | [] => Return pspec
  | pattern :: rest =>
      match pattern with
      | [old; new] => apply_patterns (PipelineSpec.replace pspec old new) rest
      | [] => Raise (ValueError "not enough values to unpack (expected 2, got 0)")
      | [_] => Raise (ValueError "not enough values to unpack (expected 2, got 1)")
      | _ => Raise (ValueError "too many values to unpack (expected 2)")
      end
  end.

(** The loop over the spec files found, each given with its text. *)
Fixpoint gather (bracket : str -> str -> bool) (specs : list (str * str))
  (patterns : list (list str)) (search_pattern : str) (info : list str)
  : result (list str) :=
  match specs with
  | [] => Return info
  | (spec, text) :: rest =>
      match PipelineSpec.init spec text with
      | Raise e => Raise e
      | Return pspec =>
          match apply_patterns pspec patterns with
          | Raise e => Raise e
          | Return pspec =>
              let info :=
                if bool_decide (search_pattern <> [])
                then info ++ search bracket pspec search_pattern
                else info ++ PipelineSpec.data pspec in
              gather bracket rest patterns search_pattern info
          end
      end
  end.

(** The order of Python on [str]: by code points, a proper prefix first. *)
Fixpoint str_ltb (a b : str) : bool :=
  match a, b with
  | [], [] => false
  | [], _ :: _ => true
  | _ :: _, [] => false
  | x :: a', y :: b' =>
      if (nat_of_ascii x <? nat_of_ascii y)%nat then true
      else if (nat_of_ascii y <? nat_of_ascii x)%nat then false
      else str_ltb a' b'
  end.

Fixpoint insert_sorted (x : str) (l : list str) : list str :=
  match l with
  | [] => [x]
  | y :: l' =>
      if str_ltb x y then x :: l
      else if str_ltb y x then y :: insert_sorted x l'
      else l
  end.

(** [sorted(set(info))] *)
Definition sorted_set (info : list str) : list str :=
  foldr insert_sorted [] info.

(** The list that the command line prints or mirrors; nothing when no
    locator was gathered (the program says so and exits). *)
Definition collect (bracket : str -> str -> bool) (specs : list (str * str))
  (patterns : list (list str)) (search_pattern : str)
  : result (option (list str)) :=
  match gather bracket specs patterns search_pattern [] with
  | Raise e => Raise e
  | Return [] => Return None
  | Return (x :: info) => Return (Some (sorted_set (x :: info)))
  end.

End Main.

(** A locator as [_read] keeps it: not empty, without white space at
    either end, no comment, no directive, on one line. *)
Definition clean_locator (l : str) : Prop :=
  l <> []
  /\ (forall c rest, l = c :: rest -> Py.isspace c = false)
  /\ (forall c, last l = Some c -> Py.isspace c = false)
  /\ Py.startswith "#" l = false
  /\ Py.startswith "@" l = false
  /\ Py.newline ∉ l.

(** A disk on which [pkg_url] is mirrored already. *)
Definition disk_with_file : world :=
  {| fs := <[ ("/root/z/w/pkg.tar" : str) := File [Byte.x07] ]> (fs disk_with_dirs);
     free := 1000000; log := [] |}.


(** The locator lines of the text of a spec file. *)
Definition locator_lines (text : str) : list str :=
  filter locator_line (map Py.strip (Py.readlines text)).

(** The file passes [verify]. *)
Definition valid_spec (text : str) : Prop :=
  existsb (Py.startswith "@EXPLICIT") (Py.readlines text) = true.


(** A disk with a file that no locator of the examples aims at. *)
Definition disk_with_other : world :=
  {| fs := <[ ("/root/other" : str) := File [Byte.x01] ]>
             (<[ ("/root" : str) := Dir ]> ∅);
     free := 1000000; log := [] |}.

(** The text of a small spec file. *)
Definition spec_text : str :=
  "@EXPLICIT" ++ [Py.newline]
  ++ "  http://x/y/z/w/pkg.tar " ++ [Py.newline]
  ++ "# a comment" ++ [Py.newline].

(** A matcher for the patterns with a bracket that matches nothing. *)
Definition no_bracket (name pat : str) : bool := false.

(** * Properties *)

(** ** The library functions on examples *)

Example split_ex :
  Py.split "/" "http://x/y" = ["http:" : str; []; "x" : str; "y" : str].
Proof. reflexivity. Qed.

Example replace_ex : Py.replace "a-b-a-b" "a" "xy" = "xy-b-xy-b".
Proof. reflexivity. Qed.

Example replace_overlap_ex : Py.replace "aaa" "aa" "b" = "ba".
Proof. reflexivity. Qed.

Example replace_empty_ex : Py.replace "abc" "" "-" = "-a-b-c-".
Proof. reflexivity. Qed.

Example replace_first_ex : Py.replace_first "a-b-a-b" "a" "xy" = "xy-b-a-b".
Proof. reflexivity. Qed.

Example strip_ex : Py.strip "  ab c  " = "ab c".
Proof. reflexivity. Qed.

Example readlines_ex :
  Py.readlines ("a" ++ [Py.newline] ++ "b")
  = ["a" ++ [Py.newline]; "b" : str].
Proof. reflexivity. Qed.

Example normpath_ex : os_path.normpath "/root/z/../w//x/./y/" = "/root/w/x/y".
Proof. reflexivity. Qed.

Example normpath_two_slashes_ex : os_path.normpath "//a" = "//a".
Proof. reflexivity. Qed.

Example normpath_parent_ex : os_path.normpath "../../a/.." = "../..".
Proof. reflexivity. Qed.

Example join_ex : os_path.join "backup" "z/w" = "backup/z/w".
Proof. reflexivity. Qed.

Example join_absolute_ex : os_path.join "/root" "/root/z/w" = "/root/z/w".
Proof. reflexivity. Qed.

Example basename_ex : os_path.basename "http://x/y/z/w/pkg.tar" = "pkg.tar".
Proof. reflexivity. Qed.

Example read_rest_ex :
  read {| segments := [[Byte.x00; Byte.x01; Byte.x02]]; fault := None |} 2
  = Return ([Byte.x00; Byte.x01],
            {| segments := [[Byte.x02]]; fault := None |}).
Proof. reflexivity. Qed.


(** ** Strings *)
Section StringFacts.

Lemma startswith_app (p rest : str) : Py.startswith p (p ++ rest) = true.
Proof.
  induction p as [|c p IH]; simpl; [done|].
  rewrite IH. by rewrite bool_decide_eq_true_2.
Qed.

Lemma startswith_inv (p s : str) :
  Py.startswith p s = true -> exists rest, s = p ++ rest.
Proof.
  revert s. induction p as [|c p IH]; intros s H; simpl in *.
  - by exists s.
  - destruct s as [|d s]; [done|].
    apply andb_true_iff in H as [Hc Hp].
    apply bool_decide_eq_true_1 in Hc as ->.
    destruct (IH _ Hp) as [rest ->]. by exists rest.
Qed.

Lemma replace_from_skip (old new p rest : str) :
  Py.replace_from old new (length p) (p ++ rest)
  = Py.replace_from old new 0 rest.
Proof. induction p as [|c p IH]; simpl; [by destruct rest|done]. Qed.

(** [replace] at an occurrence: the occurrence is substituted and the
    scan goes on behind it. *)
Lemma replace_at_occurrence (old new rest : str) :
  old ≠ [] ->
  Py.replace (old ++ rest) old new = new ++ Py.replace rest old new.
Proof.
  destruct old as [|c old]; [done|intros _].
  unfold Py.replace.
  change ((c :: old) ++ rest) with (c :: (old ++ rest)).
  cbn [Py.replace_from].
  change (c :: old ++ rest) with ((c :: old) ++ rest).
  rewrite startswith_app.
  replace (length (c :: old) - 1) with (length old) by (simpl; lia).
  by rewrite replace_from_skip.
Qed.

(** [replace] where no occurrence starts: the character is kept. *)
Lemma replace_no_occurrence_here (old new : str) (c : ascii) (s : str) :
  Py.startswith old (c :: s) = false ->
  Py.replace (c :: s) old new = c :: Py.replace s old new.
Proof.
  destruct old as [|o old]; [done|intros H].
  unfold Py.replace. cbn [Py.replace_from]. by rewrite H.
Qed.

Lemma replace_empty_subject (old new : str) :
  old ≠ [] -> Py.replace [] old new = [].
Proof. by destruct old. Qed.

Lemma readlines_concat (text : str) : concat (Py.readlines text) = text.
Proof.
  induction text as [|c text IH]; [done|]. simpl.
  destruct (decide (c = Py.newline)); simpl; [by rewrite IH|].
  destruct (Py.readlines text) as [|line lines]; simpl in *.
  - by subst.
  - by rewrite IH.
Qed.

End StringFacts.

(** ** PipelineSpec *)
Section PipelineSpecFacts.
Import PipelineSpec.

Lemma verify_lines_existsb (lines : list str) :
  verify_lines lines = existsb (Py.startswith "@EXPLICIT") lines.
Proof.
  induction lines as [|l lines IH]; simpl; [done|].
  by destruct (Py.startswith "@EXPLICIT" l).
Qed.

Lemma read_loop_filter (lines acc : list str) :
  fold_left read_line lines acc
  = acc ++ filter locator_line (map Py.strip lines).
Proof.
  revert acc. induction lines as [|l lines IH]; intros acc; simpl.
  - by rewrite app_nil_r.
  - rewrite IH. unfold read_line.
    rewrite filter_cons. unfold locator_line at 2.
    destruct (decide _) as [(H1 & H2 & H3)|Hn].
    + cbv zeta. rewrite H2, H3. rewrite (bool_decide_eq_false_2 _ H1).
      simpl. by rewrite <- app_assoc.
    + cbv zeta.
      destruct (bool_decide_reflect (Py.strip l = [])) as [|H1];
        destruct (Py.startswith "#" (Py.strip l)) eqn:H2;
        destruct (Py.startswith "@" (Py.strip l)) eqn:H3;
        cbn [orb]; try done.
      by destruct Hn.
Qed.

(** C7: [_read] fails with the invalid-spec error exactly when no line of
    the file starts with the marker [@EXPLICIT]; otherwise it returns the
    trimmed lines, in their order and with repetitions, without those that
    are empty or start with [#] or [@]. *)
Theorem read_locator_lines (fname text : str) :
  _read fname text =
    if existsb (Py.startswith "@EXPLICIT") (Py.readlines text)
    then Return (filter locator_line (map Py.strip (Py.readlines text)))
    else Raise (PipelineSpecError ("Invalid spec file: " ++ fname)).
Proof.
  unfold _read, verify. rewrite verify_lines_existsb.
  destruct (existsb _ _); simpl; [|done].
  by rewrite read_loop_filter.
Qed.

Lemma scan_parts_elem (record old new : str) (parts : list str) :
  scan_parts record old new parts
  = if decide (old ∈ parts) then Some (Py.replace record old new) else None.
Proof.
  induction parts as [|p parts IH]; simpl.
  - destruct (decide (old ∈ [])) as [H|]; [by apply not_elem_of_nil in H|done].
  - destruct (decide (p = old)) as [->|Hne].
    + rewrite decide_True; [done|by left].
    + rewrite IH. destruct (decide (old ∈ parts)) as [H|H].
      * rewrite decide_True; [done|by right].
      * rewrite decide_False; [done|].
        intros [?|?]%elem_of_cons; congruence.
Qed.

Lemma replace_loop_map (old new : str) (todo seen : list str) :
  replace_loop (length todo) (length seen) old new (seen ++ todo)
  = seen ++ map (substitute old new) todo.
Proof.
  revert seen. induction todo as [|r todo IH]; intros seen; [done|].
  cbn [length replace_loop].
  rewrite list_lookup_middle by done.
  rewrite scan_parts_elem. cbn [map].
  assert (Hlen : forall x : str, S (length seen) = length (seen ++ [x])).
  { intros x. rewrite length_app. simpl. lia. }
  assert (Hmid : forall x : str, seen ++ x :: todo = (seen ++ [x]) ++ todo).
  { intros x. by rewrite <- app_assoc. }
  assert (Hsub : substitute old new r
                 = if decide (old ∈ Py.split "/" r)
                   then Py.replace r old new else r) by done.
  rewrite Hsub.
  destruct (decide (old ∈ Py.split "/" r)).
  - rewrite insert_app_r_alt by lia. rewrite Nat.sub_diag. simpl.
    by rewrite (Hmid (Py.replace r old new)), (Hlen (Py.replace r old new)),
      IH, <- app_assoc.
  - by rewrite (Hmid r), (Hlen r), IH, <- app_assoc.
Qed.

(** C2 (as the code has it): [replace] changes exactly the records that
    have [old] as a whole [/]-delimited part, and in such a record it
    substitutes every occurrence of [old] in the whole string
    ([Py.replace], see [replace_at_occurrence]); the other records are
    left as they are. *)
Theorem replace_substitutes_every_occurrence (self : t) (old new : str) :
  filename (replace self old new) = filename self /\
  data (replace self old new) =
    map (fun record =>
           if decide (old ∈ Py.split "/" record)
           then Py.replace record old new
           else record) (data self).
Proof.
  split; [done|]. unfold replace. simpl.
  apply (replace_loop_map old new (data self) []).
Qed.

(** C2, as stated, fails: a record with [old] as a part and again later in
    the string has both occurrences substituted, not the first only. *)
Lemma replace_not_first_occurrence_only :
  let doc := {| filename := "spec.txt";
                data := ["http://h/old/linux-64/old-1.0.tar" : str] |} in
  data (replace doc "old" "new") = ["http://h/new/linux-64/new-1.0.tar" : str]
  /\ data (replace_first_only doc "old" "new")
     = ["http://h/new/linux-64/old-1.0.tar" : str]
  /\ replace doc "old" "new" <> replace_first_only doc "old" "new".
Proof.
  split; [reflexivity|]. split; [reflexivity|].
  intros H. vm_compute in H. discriminate H.
Qed.

End PipelineSpecFacts.

(** ** Path resolution *)

Section PathFacts.
Import Backup.

Lemma count_sep_app (a b : str) : count_sep (a ++ b) = count_sep a + count_sep b.
Proof. unfold count_sep. by rewrite filter_app, length_app. Qed.

Lemma count_sep_cons (c : ascii) (s : str) :
  count_sep (c :: s) = (if decide (c = "/"%char) then 1 else 0) + count_sep s.
Proof. unfold count_sep. rewrite filter_cons. by destruct (decide _). Qed.

Lemma count_sep_none (s : str) : "/"%char ∉ s -> count_sep s = 0.
Proof.
  induction s as [|c s IH]; [done|]. intros H.
  apply not_elem_of_cons in H as [Hc Hs].
  rewrite count_sep_cons, IH by done. by rewrite decide_False.
Qed.

Lemma scan_markers_app (a b : str) (i : nat) (acc : list nat) :
  scan_markers i (a ++ b) acc
  = scan_markers (i + length a) b (scan_markers i a acc).
Proof.
  revert i acc. induction a as [|c a IH]; intros i acc; simpl.
  - by rewrite Nat.add_0_r.
  - rewrite IH. f_equal. lia.
Qed.

Lemma scan_markers_none (s : str) (i : nat) (acc : list nat) :
  "/"%char ∉ s -> scan_markers i s acc = acc.
Proof.
  revert i. induction s as [|c s IH]; intros i H; [done|].
  apply not_elem_of_cons in H as [Hc Hs]. simpl.
  rewrite decide_False by done. by apply IH.
Qed.

Lemma scan_markers_length (s : str) (i : nat) (acc : list nat) :
  length (scan_markers i s acc) = length acc + count_sep s.
Proof.
  revert i acc. induction s as [|c s IH]; intros i acc; simpl.
  - unfold count_sep. simpl. lia.
  - rewrite IH, count_sep_cons. destruct (decide _); [|lia].
    rewrite length_app. simpl. lia.
Qed.

Lemma rfind_sep1_app (a b : str) (i found : nat) :
  os_path.rfind_sep1 i (a ++ b) found
  = os_path.rfind_sep1 (i + length a) b (os_path.rfind_sep1 i a found).
Proof.
  revert i found. induction a as [|c a IH]; intros i found; simpl.
  - by rewrite Nat.add_0_r.
  - rewrite IH. f_equal. lia.
Qed.

Lemma rfind_sep1_none (s : str) (i found : nat) :
  "/"%char ∉ s -> os_path.rfind_sep1 i s found = found.
Proof.
  revert i. induction s as [|c s IH]; intros i H; [done|].
  apply not_elem_of_cons in H as [Hc Hs]. simpl.
  rewrite decide_False by done. by apply IH.
Qed.

(** The base name is what follows the last separator. *)
Lemma basename_after_last_sep (pre f : str) :
  "/"%char ∉ f -> os_path.basename (pre ++ "/"%char :: f) = f.
Proof.
  intros Hf. unfold os_path.basename.
  rewrite rfind_sep1_app. cbn [os_path.rfind_sep1].
  rewrite decide_True by done.
  rewrite rfind_sep1_none by done. rewrite Nat.add_0_l.
  replace (S (length pre)) with (length (pre ++ ["/"%char]))
    by (rewrite length_app; simpl; lia).
  replace (pre ++ "/"%char :: f) with ((pre ++ ["/"%char]) ++ f)
    by (by rewrite <- app_assoc).
  by rewrite drop_app_length.
Qed.

(** A string with a separator splits at its last one. *)
Lemma split_at_last_sep (s : str) :
  1 <= count_sep s ->
  exists pre f, s = pre ++ "/"%char :: f /\ ("/"%char ∉ f)
                /\ count_sep s = S (count_sep pre).
Proof.
  induction s as [|c s IH]; [unfold count_sep; simpl; lia|].
  rewrite count_sep_cons. intros H.
  destruct (decide (1 <= count_sep s)) as [Hs|Hs].
  - destruct (IH Hs) as (pre & f & -> & Hf & Hc).
    exists (c :: pre), f. split; [done|]. split; [done|].
    rewrite Hc, count_sep_cons. lia.
  - destruct (decide (c = "/"%char)) as [->|]; [|lia].
    exists [], s. split; [done|]. split.
    + intros Hin. assert (count_sep s = 0) by lia.
      unfold count_sep in *.
      apply list_elem_of_split in Hin as (l1 & l2 & ->).
      rewrite filter_app, filter_cons, decide_True, length_app in * by done.
      simpl in *. lia.
    + unfold count_sep at 2. simpl. lia.
Qed.

(** Path resolution on a locator cut at its last three separators. *)
Lemma determine_local_path_cut (self : t) (head s1 s2 f : str) :
  "/"%char ∉ s1 -> "/"%char ∉ s2 -> "/"%char ∉ f ->
  _determine_local_path self (head ++ "/" ++ s1 ++ "/" ++ s2 ++ "/" ++ f)
  = Return (os_path.normpath (os_path.join (destination self) (s1 ++ "/" ++ s2)), f).
Proof.
  intros H1 H2 Hf. unfold _determine_local_path.
  change (list_ascii_of_string "/") with ["/"%char]. simpl app.
  set (h := length head). set (M := scan_markers 0 head []).
  assert (Hm : scan_markers 0 (head ++ "/"%char :: s1 ++ "/"%char :: s2 ++ "/"%char :: f) []
               = M ++ [h; S h + length s1; S (S h + length s1) + length s2]).
  { rewrite scan_markers_app. simpl. fold h M.
    rewrite scan_markers_app, (scan_markers_none s1) by done. simpl.
    rewrite scan_markers_app, (scan_markers_none s2) by done. simpl.
    rewrite scan_markers_none by done. reassoc. }
  rewrite Hm.
  assert (Hlen : length (M ++ [h; S h + length s1; S (S h + length s1) + length s2])
                 = length M + 3) by (rewrite length_app; simpl; lia).
  rewrite Hlen.
  destruct (Nat.ltb_spec (length M + 3) 3) as [|_]; [lia|].
  replace (length M + 3 - 3) with (length M + 0) by lia.
  replace (length M + 3 - 1) with (length M + 2) by lia.
  rewrite !app_nth2_plus. simpl nth.
  f_equal. f_equal.
  - f_equal. f_equal. unfold Py.slice.
    replace (head ++ "/"%char :: s1 ++ "/"%char :: s2 ++ "/"%char :: f)
      with ((head ++ ["/"%char]) ++ (s1 ++ "/"%char :: s2) ++ "/"%char :: f).
    2:{ reassoc. }
    replace (h + 1) with (length (head ++ ["/"%char]))
      by (rewrite length_app; simpl; lia).
    rewrite drop_app_length. apply take_app_length'.
    rewrite !length_app. simpl. lia.
  - replace (head ++ "/"%char :: s1 ++ "/"%char :: s2 ++ "/"%char :: f)
      with ((head ++ "/"%char :: s1 ++ "/"%char :: s2) ++ "/"%char :: f).
    2:{ reassoc. }
    by apply basename_after_last_sep.
Qed.

(** C5: for a locator with at least three separators, the file name is
    what follows the last separator and the directory is the normalized
    join of the destination with the part of the locator between its
    third-from-last separator and its last one; the example of the
    specification resolves to [/root/z/w] and [pkg.tar]. *)
Theorem determine_local_path_spec :
  (forall (self : t) (record : str),
     3 <= count_sep record ->
     exists head s1 s2 filename : str,
       record = head ++ "/" ++ s1 ++ "/" ++ s2 ++ "/" ++ filename
       /\ ("/"%char ∉ s1) /\ ("/"%char ∉ s2) /\ ("/"%char ∉ filename)
       /\ _determine_local_path self record
          = Return (os_path.normpath
                      (os_path.join (destination self) (s1 ++ "/" ++ s2)),
                    filename))
  /\ _determine_local_path (init [] "/root") "http://x/y/z/w/pkg.tar"
     = Return ("/root/z/w" : str, "pkg.tar" : str).
Proof.
  split; [|reflexivity].
  intros self record H.
  destruct (split_at_last_sep record) as (r1 & f & -> & Hf & Hc1); [lia|].
  destruct (split_at_last_sep r1) as (r2 & s2 & -> & H2 & Hc2); [lia|].
  destruct (split_at_last_sep r2) as (head & s1 & -> & H1 & Hc3); [lia|].
  exists head, s1, s2, f.
  assert (Heq : (head ++ "/"%char :: s1) ++ "/"%char :: s2
                = head ++ "/" ++ s1 ++ "/" ++ s2).
  { change (list_ascii_of_string "/") with ["/"%char]. reassoc. }
  assert (Heq' : ((head ++ "/"%char :: s1) ++ "/"%char :: s2) ++ "/"%char :: f
                = head ++ "/" ++ s1 ++ "/" ++ s2 ++ "/" ++ f).
  { change (list_ascii_of_string "/") with ["/"%char]. reassoc. }
  rewrite Heq'. split; [done|]. do 3 (split; [done|]).
  by apply determine_local_path_cut.
Qed.

(** The hypothesis of C5 holds at the example of the specification. *)
Lemma determine_local_path_spec_witness :
  3 <= count_sep "http://x/y/z/w/pkg.tar"
  /\ exists head s1 s2 filename : str,
       ("http://x/y/z/w/pkg.tar" : str)
       = head ++ "/" ++ s1 ++ "/" ++ s2 ++ "/" ++ filename
       /\ ("/"%char ∉ s1) /\ ("/"%char ∉ s2) /\ ("/"%char ∉ filename)
       /\ _determine_local_path (init [] "/root") "http://x/y/z/w/pkg.tar"
          = Return (os_path.normpath
                      (os_path.join (destination (init [] "/root"))
                         (s1 ++ "/" ++ s2)),
                    filename).
Proof.
  split; [vm_compute; lia|].
  apply (proj1 determine_local_path_spec). vm_compute. lia.
Defined.

(** A locator with fewer than three separators is refused. *)
Lemma determine_local_path_malformed (self : t) (record : str) :
  count_sep record < 3 ->
  _determine_local_path self record
  = Raise (ValueError "Invalid URL part length").
Proof.
  intros H. unfold _determine_local_path.
  rewrite scan_markers_length. simpl.
  by destruct (Nat.ltb_spec (count_sep record) 3) as [|]; [|lia].
Qed.

End PathFacts.

(** ** The file system *)
Section FSFacts.

Lemma fs_le_refl (f : gmap str node) : fs_le f f.
Proof. by intros q. Qed.

Lemma fs_le_trans (f1 f2 f3 : gmap str node) :
  fs_le f1 f2 -> fs_le f2 f3 -> fs_le f1 f3.
Proof.
  intros H12 H23 q. destruct (H12 q) as [Ha Hb], (H23 q) as [Hc Hd].
  split; auto.
Qed.

Lemma is_dir_true (n : option node) : FS.is_dir n = true <-> n = Some Dir.
Proof. destruct n as [[|c]|]; simpl; split; congruence. Qed.

Lemma ancestors_mono (f f' : gmap str node) (q : str) :
  fs_le f f' ->
  FS.ancestors_are_dirs f q = true -> FS.ancestors_are_dirs f' q = true.
Proof.
  intros Hle. unfold FS.ancestors_are_dirs. rewrite !forallb_forall.
  intros H a Ha. apply is_dir_true, Hle, is_dir_true. by apply H.
Qed.

Lemma exists_mono (f f' : gmap str node) (p : str) :
  fs_le f f' -> FS.exists_ f p = true -> FS.exists_ f' p = true.
Proof.
  intros Hle. unfold FS.exists_, FS.resolve.
  rewrite !bool_decide_eq_true.
  destruct (FS.ancestors_are_dirs f _) eqn:Ha; [|by intros [? ?]].
  rewrite (ancestors_mono f f') by done. apply Hle.
Qed.

Lemma fs_le_insert (f : gmap str node) (q : str) (n : node) :
  (FS.implicit_dir q = false -> FS.is_dir (f !! q) = false) ->
  fs_le f (<[q := n]> f).
Proof.
  intros H q'. unfold FS.lookup_node.
  destruct (FS.implicit_dir q') eqn:Hi; [done|].
  destruct (decide (q = q')) as [->|Hne].
  - rewrite lookup_insert_eq. specialize (H Hi). split.
    + intros Hd. by rewrite Hd in H.
    + by eexists.
  - by rewrite lookup_insert_ne.
Qed.

Lemma lookup_node_insert_dir (f : gmap str node) (q : str) :
  FS.lookup_node (<[q := Dir]> f) q = Some Dir.
Proof.
  unfold FS.lookup_node. destruct (FS.implicit_dir q); [done|].
  by rewrite lookup_insert_eq.
Qed.

Lemma write_le (f : gmap str node) (p : str) (chunk : bytes) :
  fs_le f (FS.write f p chunk).
Proof.
  unfold FS.write. destruct (f !! _) as [[|c]|] eqn:E; try apply fs_le_refl.
  apply fs_le_insert. intros _. by rewrite E.
Qed.

Lemma mkdir_chain_le (chain : list str) :
  forall f f' : gmap str node,
    FS.mkdir_chain f chain = Return f' ->
    fs_le f f' /\ Forall (fun q => FS.lookup_node f' q = Some Dir) chain.
Proof.
  induction chain as [|q chain IH]; intros f f'; simpl.
  - intros [= <-]. split; [apply fs_le_refl|constructor].
  - destruct (FS.lookup_node f q) as [[|c]|] eqn:E; [|done|].
    + intros H. destruct (IH _ _ H) as [Hle Hall]. split; [done|].
      constructor; [|done]. by apply Hle.
    + intros H. destruct (IH _ _ H) as [Hle Hall].
      assert (Hins : fs_le f (<[q := Dir]> f)).
      { apply fs_le_insert. intros Hi. unfold FS.lookup_node in E.
        rewrite Hi in E. by rewrite E. }
      split; [by eapply fs_le_trans|].
      constructor; [|done]. apply Hle, lookup_node_insert_dir.
Qed.

Lemma makedirs_exists (f f' : gmap str node) (p : str) :
  FS.makedirs f p = Return f' -> fs_le f f' /\ FS.exists_ f' p = true.
Proof.
  unfold FS.makedirs. destruct (FS.exists_ f p); [done|].
  intros H. apply mkdir_chain_le in H as [Hle Hall]. split; [done|].
  apply Forall_app in Hall as [Ha Hq]. apply Forall_cons in Hq as [Hq _].
  unfold FS.exists_, FS.resolve.
  assert (Hd : FS.ancestors_are_dirs f' (os_path.normpath p) = true).
  { unfold FS.ancestors_are_dirs. apply forallb_forall. intros a Hin.
    apply is_dir_true. rewrite Forall_forall in Ha. apply Ha.
    by apply list_elem_of_In. }
  rewrite Hd, Hq. by apply bool_decide_eq_true_2.
Qed.

Lemma open_wb_exists (f f' : gmap str node) (p : str) :
  FS.open_wb f p = Return f' -> fs_le f f' /\ FS.exists_ f' p = true.
Proof.
  unfold FS.open_wb.
  destruct (FS.ancestors_are_dirs f _) eqn:Ha; [|done]. simpl.
  destruct (FS.is_dir _) eqn:Hd; [done|]. intros [= <-].
  assert (Hi : FS.implicit_dir (os_path.normpath p) = false).
  { unfold FS.lookup_node in Hd. by destruct (FS.implicit_dir _). }
  assert (Hle : fs_le f (<[os_path.normpath p := File []]> f)).
  { apply fs_le_insert. intros _. unfold FS.lookup_node in Hd.
    by rewrite Hi in Hd. }
  split; [done|].
  unfold FS.exists_, FS.resolve.
  rewrite (ancestors_mono f _ _ Hle Ha).
  unfold FS.lookup_node. rewrite Hi, lookup_insert_eq.
  by apply bool_decide_eq_true_2.
Qed.

Lemma open_wb_intro (f : gmap str node) (p : str) :
  FS.ancestors_are_dirs f (os_path.normpath p) = true ->
  FS.is_dir (FS.lookup_node f (os_path.normpath p)) = false ->
  FS.open_wb f p = Return (<[os_path.normpath p := File []]> f).
Proof. intros Ha Hd. unfold FS.open_wb. by rewrite Ha, Hd. Qed.

End FSFacts.

(** ** The transfer loop *)
Section TransferFacts.
Import Backup.

Lemma read_progress (data data' : response) (bs : N) (chunk : bytes) :
  read data bs = Return (chunk, data') ->
  (N.of_nat (length chunk) <= bs)%N
  /\ (chunk = [] \/ response_size data' < response_size data).
Proof.
  unfold read, response_size.
  destruct (segments data) as [|seg rest] eqn:Hseg.
  - destruct (fault data); [done|]. intros [= <- <-]. simpl. split; [lia|by left].
  - destruct (N.leb_spec (N.of_nat (length seg)) bs) as [Hle|Hgt].
    + intros [= <- <-]. split; [done|]. right. simpl.
      rewrite length_app. lia.
    + intros [= <- <-]. split.
      * rewrite length_take. lia.
      * destruct (N.to_nat bs) as [|n] eqn:Hn; [by left|right].
        simpl. rewrite !length_app, length_drop. lia.
Qed.

Lemma chunked_of_tail (bs : N) (p : str) (chunk : bytes) (s s' : Stats)
  (tr : list event) (exc : option exn) :
  (N.of_nat (length chunk) <= bs)%N ->
  chunked_tail bs p chunk (add_read (length chunk) s) tr exc s' ->
  chunked bs p s
    (EvRead bs chunk :: EvStats (add_read (length chunk) s) :: tr) exc s'.
Proof.
  intros Hle. destruct chunk as [|c chunk]; simpl.
  - intros (-> & -> & ->). apply chunked_eof.
  - intros [(e & -> & -> & ->)|(tr' & -> & H)].
    + by apply chunked_write_error.
    + by apply chunked_chunk.
Qed.

Lemma loop_fuel_next (data data' : response) (bs : N) (c : Byte.byte)
  (chunk chunk' : bytes) (fuel : nat) :
  read data bs = Return (chunk', data') ->
  loop_fuel data (c :: chunk) <= S fuel -> loop_fuel data' chunk' <= fuel.
Proof.
  intros Hr Hf. apply read_progress in Hr as [_ [->|Hlt]]; simpl in *; [lia|].
  destruct chunk'; simpl; lia.
Qed.

(** The loop does not depend on the fuel once there is enough of it. *)
Lemma transfer_loop_fuel (bs : N) (p : str) (fuel : nat) :
  forall (fuel' : nat) (data : response) (chunk : bytes) (st : Stats * world),
    loop_fuel data chunk <= fuel -> loop_fuel data chunk <= fuel' ->
    transfer_loop fuel bs p data chunk st
    = transfer_loop fuel' bs p data chunk st.
Proof.
  induction fuel as [|fuel IH]; intros fuel' data chunk st H H'.
  { destruct chunk; simpl in H; lia. }
  destruct fuel' as [|fuel']; [destruct chunk; simpl in H'; lia|].
  destruct chunk as [|c chunk]; [done|]. cbn [transfer_loop].
  destruct (_ <? _)%N; [done|].
  destruct (read data bs) as [[chunk' data']|e] eqn:Hr; [|done].
  apply IH.
  - by apply (loop_fuel_next data data' bs c chunk chunk' _ Hr).
  - by apply (loop_fuel_next data data' bs c chunk chunk' _ Hr).
Qed.

(** The equation of the [while] loop. *)
Lemma transfer_unfold (bs : N) (p : str) (data : response) (chunk : bytes)
  (st : Stats * world) :
  transfer bs p data chunk st =
    match chunk with
    | [] => (None, st)
    | _ :: _ =>
        if (free (snd st) <? N.of_nat (length chunk))%N
        then (Some (OSError "No space left on device"), st)
        else
          let st := (fst st, write_chunk p chunk (snd st)) in
          let st := update (add_written (length chunk)) st in
          match read data bs with
          | Raise e => (Some e, st)
          | Return (chunk', data') =>
              let st := (fst st, emit (EvRead bs chunk') (snd st)) in
              let st := update (add_read (length chunk')) st in
              transfer bs p data' chunk' st
          end
    end.
Proof.
  unfold transfer.
  replace (response_size data + 2) with (S (response_size data + 1)) by lia.
  cbn [transfer_loop].
  destruct chunk as [|c chunk]; [done|]. cbv zeta.
  destruct (_ <? _)%N; [done|].
  destruct (read data bs) as [[chunk' data']|e] eqn:Hr; [|done].
  apply transfer_loop_fuel.
  - apply (loop_fuel_next data data' bs c chunk chunk' _ Hr). simpl. lia.
  - destruct chunk'; simpl; lia.
Qed.

(** The loop, given enough fuel, follows the course described by
    [chunked_tail]; the file system only grows. *)
Lemma transfer_loop_chunked (fuel : nat) (bs : N) (p : str) :
  forall (data : response) (chunk : bytes) (s : Stats) (w : world),
    loop_fuel data chunk <= fuel ->
    exists tr exc s' w',
      transfer_loop fuel bs p data chunk (s, w) = (exc, (s', w'))
      /\ log w' = log w ++ tr
      /\ chunked_tail bs p chunk s tr exc s'
      /\ fs_le (fs w) (fs w').
Proof.
  induction fuel as [|fuel IH]; intros data chunk s w H.
  { destruct chunk; simpl in H; lia. }
  destruct chunk as [|c chunk].
  { exists [], None, s, w. simpl. rewrite app_nil_r.
    repeat split; try done. all: apply fs_le_refl. }
  cbn [transfer_loop]. cbv zeta. cbn [snd].
  destruct (_ <? _)%N.
  { exists [], (Some (OSError "No space left on device")), s, w.
    rewrite app_nil_r. split; [done|]. split; [done|].
    split; [|apply fs_le_refl]. left. by eexists. }
  destruct (read data bs) as [[chunk' data']|e] eqn:Hr.
  - destruct (read_progress _ _ _ _ Hr) as [Hle _].
    unfold update, emit, set_fs, write_chunk. cbn [fst snd fs log free].
    match goal with
    | |- context [transfer_loop fuel bs p data' chunk' (?s0, ?w0)] =>
        destruct (IH data' chunk' s0 w0)
          as (tr & exc & s' & w' & Heq & Hlog & Htail & Hfs);
        [by apply (loop_fuel_next data data' bs c chunk chunk' _ Hr)|]
    end.
    rewrite Heq. eexists _, exc, s', w'. split; [done|].
    split; [|split].
    + rewrite Hlog. simpl. rewrite <- !app_assoc. simpl. reflexivity.
    + right. eexists. split; [reflexivity|].
      by apply chunked_of_tail.
    + eapply fs_le_trans; [|apply Hfs]. simpl. apply write_le.
  - eexists _, (Some e), _, _. split; [reflexivity|]. split; [|split].
    + simpl. rewrite <- !app_assoc. simpl. reflexivity.
    + right. eexists. split; [reflexivity|]. apply chunked_read_error.
    + simpl. apply write_le.
Qed.

(** The counters other than [read] and [written] are not touched. *)
Lemma chunked_counters (bs : N) (p : str) (s s' : Stats) (tr : list event)
  (exc : option exn) :
  chunked bs p s tr exc s' ->
  success s' = success s /\ skipped s' = skipped s
  /\ fatal s' = fatal s /\ fail s' = fail s.
Proof.
  induction 1 as [s|s e|s chunk e Hne Hle|s chunk tr exc s' Hne Hle H IH];
    [done|done|done|].
  destruct IH as (-> & -> & -> & ->). done.
Qed.

(** [written <= read] holds all along a transfer. *)
Lemma chunked_balanced (bs : N) (p : str) (s s' : Stats) (tr : list event)
  (exc : option exn) :
  chunked bs p s tr exc s' ->
  balanced s -> Forall balanced_event tr /\ balanced s'.
Proof.
  unfold balanced.
  induction 1 as [s|s e|s chunk e Hne Hle|s chunk tr exc s' Hne Hle H IH];
    intros Hb.
  - split; [|simpl; lia]. repeat constructor. simpl. unfold balanced. simpl. lia.
  - split; [constructor|done].
  - split; [|simpl; lia]. repeat constructor. simpl. unfold balanced. simpl. lia.
  - destruct IH as [Htr Hs']; [simpl; lia|]. split; [|done].
    repeat constructor; simpl; unfold balanced; simpl; try lia. done.
Qed.

(** A transfer that ends without an exception has written what it read. *)
Lemma chunked_equal (bs : N) (p : str) (s s' : Stats) (tr : list event)
  (exc : option exn) :
  chunked bs p s tr exc s' ->
  exc = None -> written s = read_ s -> written s' = read_ s'.
Proof.
  induction 1 as [s|s e|s chunk e Hne Hle|s chunk tr exc s' Hne Hle H IH];
    intros Hexc Hb; try done.
  - simpl. lia.
  - apply IH; [done|]. simpl. lia.
Qed.

End TransferFacts.

(** ** The engine *)
Section EngineFacts.
Import Backup.

Variable urlopen : str -> result response.

Lemma app_unchanged {A : Type} (l k : list A) : l ++ k = l -> k = [].
Proof.
  intros H. apply (app_inv_head l). by rewrite app_nil_r.
Qed.

Lemma determine_local_path_dest (self self' : t) (url : str) :
  destination self' = destination self ->
  _determine_local_path self' url = _determine_local_path self url.
Proof. intros H. unfold _determine_local_path. by rewrite H. Qed.

Lemma mirrored_mono (f f' : gmap str node) (self self' : t) (url : str) :
  fs_le f f' -> destination self' = destination self ->
  mirrored f self url -> mirrored f' self' url.
Proof.
  intros Hle Hd (path & filename & Hp & H1 & H2).
  exists path, filename. rewrite (determine_local_path_dest self self') by done.
  unfold fullpath_of, dirpath_of in *. rewrite Hd.
  split; [done|]. split; by eapply exists_mono.
Qed.

(** A transfer that gets to its first read follows [chunked]. *)
Lemma try_body_transfer (self : t) (url fullpath : str) (w : world)
  (data : response) (fs' : gmap str node) (v : bool) :
  urlopen url = Return data ->
  FS.open_wb (fs w) fullpath = Return fs' ->
  verbose self = Some v ->
  exists tr exc s' w',
    try_body urlopen self url fullpath w = (exc, (s', w'))
    /\ log w' = log w ++ tr
    /\ chunked (block_size self) fullpath (stats self) tr exc s'
    /\ fs_le fs' (fs w').
Proof.
  intros Hu Ho Hv. unfold try_body. rewrite Hu, Ho, Hv.
  destruct (read data (block_size self)) as [[chunk data']|e] eqn:Hr.
  - destruct (read_progress _ _ _ _ Hr) as [Hle _].
    unfold transfer, update, emit, set_fs. cbn [fst snd fs log free].
    match goal with
    | |- context [transfer_loop ?n ?bs ?p data' chunk (?s0, ?w0)] =>
        destruct (transfer_loop_chunked n bs p data' chunk s0 w0)
          as (tr & exc & s' & w' & Heq & Hlog & Htail & Hfs);
        [destruct chunk; simpl; lia|]
    end.
    rewrite Heq. eexists _, exc, s', w'. split; [done|]. split; [|split].
    + rewrite Hlog. simpl. rewrite <- !app_assoc. simpl. reflexivity.
    + by apply chunked_of_tail.
    + done.
  - exists [], (Some e), (stats self), (set_fs fs' w).
    simpl. rewrite app_nil_r. split; [done|]. split; [done|].
    split; [apply chunked_read_error|apply fs_le_refl].
Qed.

(** What the [try] statement does in every case. *)
Lemma try_body_effect (self : t) (url fullpath : str) (w w' : world)
  (exc : option exn) (s' : Stats) :
  try_body urlopen self url fullpath w = (exc, (s', w')) ->
  exists tr,
    log w' = log w ++ tr /\ fs_le (fs w) (fs w')
    /\ (success s' = success (stats self) /\ skipped s' = skipped (stats self)
        /\ fatal s' = fatal (stats self) /\ fail s' = fail (stats self))
    /\ (balanced (stats self) -> Forall balanced_event tr /\ balanced s')
    /\ (exc = None -> written (stats self) = read_ (stats self) ->
        written s' = read_ s')
    /\ (exc = None -> FS.exists_ (fs w') fullpath = true).
Proof.
  intros H.
  assert (Htriv : forall e, (exc, (s', w')) = (Some e, (stats self, w)) ->
    exists tr,
      log w' = log w ++ tr /\ fs_le (fs w) (fs w')
      /\ (success s' = success (stats self) /\ skipped s' = skipped (stats self)
          /\ fatal s' = fatal (stats self) /\ fail s' = fail (stats self))
      /\ (balanced (stats self) -> Forall balanced_event tr /\ balanced s')
      /\ (exc = None -> written (stats self) = read_ (stats self) ->
          written s' = read_ s')
      /\ (exc = None -> FS.exists_ (fs w') fullpath = true)).
  { intros e [= -> -> ->]. exists []. rewrite app_nil_r.
    repeat split; try done. all: apply fs_le_refl. }
  destruct (urlopen url) as [data|e] eqn:Hu.
  2:{ unfold try_body in H. rewrite Hu in H. by eapply Htriv. }
  destruct (FS.open_wb (fs w) fullpath) as [fs'|e] eqn:Ho.
  2:{ unfold try_body in H. rewrite Hu, Ho in H. by eapply Htriv. }
  destruct (open_wb_exists _ _ _ Ho) as [Hle Hex].
  destruct (verbose self) as [v|] eqn:Hv.
  - destruct (try_body_transfer self url fullpath w data fs' v Hu Ho Hv)
      as (tr & exc0 & s0 & w0 & Heq & Hlog & Hch & Hfs).
    rewrite Heq in H. injection H as -> -> ->.
    exists tr. split; [done|]. split; [by eapply fs_le_trans|].
    split; [by eapply chunked_counters|].
    split; [by eapply chunked_balanced|].
    split; [by eapply chunked_equal|].
    intros _. by eapply exists_mono.
  - unfold try_body in H. rewrite Hu, Ho, Hv in H.
    injection H as <- <- <-. exists []. simpl. rewrite app_nil_r.
    split; [done|]. split; [done|]. repeat split; done.
Qed.

Lemma check_paths_proceed (f f' : gmap str node) (dirpath fullpath : str) :
  check_paths f dirpath fullpath = Proceed f' ->
  fs_le f f' /\ FS.exists_ f' dirpath = true.
Proof.
  unfold check_paths. destruct (FS.exists_ f dirpath) eqn:Hd; simpl.
  - destruct (FS.exists_ f fullpath); [done|]. intros [= <-].
    split; [apply fs_le_refl|done].
  - destruct (FS.makedirs f dirpath) as [f1|e] eqn:Hm; [|done].
    intros [= <-]. by apply makedirs_exists.
Qed.

Lemma check_paths_present (f : gmap str node) (dirpath fullpath : str) :
  FS.exists_ f dirpath = true -> FS.exists_ f fullpath = false ->
  check_paths f dirpath fullpath = Proceed f.
Proof. intros Hd Hf. unfold check_paths. by rewrite Hd, Hf. Qed.

Lemma check_paths_skip (f : gmap str node) (dirpath fullpath : str) :
  check_paths f dirpath fullpath = Skip <->
  FS.exists_ f dirpath = true /\ FS.exists_ f fullpath = true.
Proof.
  unfold check_paths. destruct (FS.exists_ f dirpath); simpl.
  - destruct (FS.exists_ f fullpath); split; try done. by intros [_ ?].
  - destruct (FS.makedirs f dirpath); split; try done; by intros [? _].
Qed.

Lemma run_effect_raise (urls : list str) (self : t) (w : world) (e : exn) :
  run_effect urls self w (Raise e) self w.
Proof.
  split; [done|]. exists []. rewrite app_nil_r.
  split; [done|]. split; [apply fs_le_refl|].
  split; [by split|]. split; [by exists []; rewrite app_nil_r|].
  split; [by exists []; rewrite app_nil_r|]. done.
Qed.

(** What [_download] does in every case. *)
Lemma download_effect (self self' : t) (url : str) (w w' : world)
  (r : result unit) :
  _download urlopen self url w = (r, (self', w')) ->
  run_effect [url] self w r self' w'.
Proof.
  unfold _download.
  destruct (_determine_local_path self url) as [[path filename]|e] eqn:Hp.
  2:{ intros [= <- <- <-]. apply run_effect_raise. }
  cbv zeta.
  destruct (check_paths _ _ _) as [e| |fs'] eqn:Hc.
  - intros [= <- <- <-]. apply run_effect_raise.
  - unfold update. cbn [fst snd]. intros [= <- <- <-].
    apply check_paths_skip in Hc as [Hd Hf].
    split; [done|]. exists [EvStats (add_skipped (stats self))].
    split; [done|]. split; [apply fs_le_refl|].
    split; [intros Hb; split; [by repeat constructor|done]|].
    split; [by exists []; rewrite app_nil_r|].
    split; [by exists []; rewrite app_nil_r|].
    intros _ _. split; [done|]. intros _. repeat constructor.
    by exists path, filename.
  - destruct (check_paths_proceed _ _ _ _ Hc) as [Hle Hd].
    destruct (try_body _ _ _ _ _) as [exc [s1 w1]] eqn:Ht.
    destruct (try_body_effect _ _ _ _ _ _ _ Ht)
      as (tr & Hlog & Hfs & (Hsu & Hsk & Hfa & Hfl) & Hbal & Heq & Hex).
    simpl in Hlog, Hfs.
    destruct exc as [reason|].
    + destruct (is_HTTPError reason).
      * unfold update. cbn [fst snd]. intros [= <- <- <-].
        split; [done|]. exists (tr ++ [EvStats (add_fail url reason s1)]).
        cbn [log fs stats set_stats]. rewrite Hlog, app_assoc.
        split; [done|]. split; [by eapply fs_le_trans|].
        split.
        { intros Hb. destruct (Hbal Hb) as [Htr Hs1]. split; [|done].
          apply Forall_app. split; [done|]. by repeat constructor. }
        cbn [fail fatal add_fail]. rewrite Hfl, Hfa.
        split; [by eexists|]. split; [by exists []; rewrite app_nil_r|].
        intros Hx. by apply app_unchanged in Hx.
      * unfold update. cbn [fst snd]. intros [= <- <- <-].
        split; [done|].
        exists (tr ++ [EvStats (add_fatal url reason s1);
                       EvStats (add_success (add_fatal url reason s1))]).
        cbn [log fs stats set_stats]. rewrite Hlog, <- !app_assoc.
        split; [done|]. split; [by eapply fs_le_trans|].
        split.
        { intros Hb. destruct (Hbal Hb) as [Htr Hs1]. split; [|done].
          apply Forall_app. split; [done|]. by repeat constructor. }
        cbn [fail fatal add_fatal add_success]. rewrite Hfl, Hfa.
        split; [by exists []; rewrite app_nil_r|]. split; [by eexists|].
        intros _ Hx. by apply app_unchanged in Hx.
    + unfold update. cbn [fst snd]. intros [= <- <- <-].
      split; [done|]. exists (tr ++ [EvStats (add_success s1)]).
      cbn [log fs stats set_stats]. rewrite Hlog, app_assoc.
      split; [done|]. split; [by eapply fs_le_trans|].
      split.
      { intros Hb. destruct (Hbal Hb) as [Htr Hs1]. split; [|done].
        apply Forall_app. split; [done|]. by repeat constructor. }
      cbn [fail fatal add_success]. rewrite Hfl, Hfa.
      split; [by exists []; rewrite app_nil_r|].
      split; [by exists []; rewrite app_nil_r|].
      intros _ _. split; [by apply Heq|]. intros _. repeat constructor.
      exists path, filename. split; [done|]. split.
      * eapply exists_mono; [apply Hfs|done].
      * by apply Hex.
Qed.

Lemma run_effect_seq (url : str) (rest : list str) (self self1 self' : t)
  (w w1 w' : world) (u : unit) (r : result unit) :
  run_effect [url] self w (Return u) self1 w1 ->
  run_effect rest self1 w1 r self' w' ->
  run_effect (url :: rest) self w r self' w'.
Proof.
  intros ((Hb1 & Hd1 & Hda1 & Hv1) & tr1 & Hlog1 & Hfs1 & Hbal1
          & [l1 Hfl1] & [k1 Hfa1] & Hok1).
  intros ((Hb2 & Hd2 & Hda2 & Hv2) & tr2 & Hlog2 & Hfs2 & Hbal2
          & [l2 Hfl2] & [k2 Hfa2] & Hok2).
  split; [unfold same_config; repeat split; congruence|].
  exists (tr1 ++ tr2). split; [by rewrite Hlog2, Hlog1, app_assoc|].
  split; [by eapply fs_le_trans|].
  split.
  { intros Hb. destruct (Hbal1 Hb) as [Ht1 Hs1].
    destruct (Hbal2 Hs1) as [Ht2 Hs2]. split; [|done].
    apply Forall_app. by split. }
  split; [exists (l1 ++ l2); by rewrite Hfl2, Hfl1, app_assoc|].
  split; [exists (k1 ++ k2); by rewrite Hfa2, Hfa1, app_assoc|].
  intros Hfl Hfa.
  rewrite Hfl2, Hfl1, <- app_assoc in Hfl. apply app_unchanged in Hfl.
  rewrite Hfa2, Hfa1, <- app_assoc in Hfa. apply app_unchanged in Hfa.
  apply app_eq_nil in Hfl as [-> ->]. apply app_eq_nil in Hfa as [-> ->].
  rewrite app_nil_r in Hfl1, Hfl2, Hfa1, Hfa2.
  destruct (Hok1 Hfl1 Hfa1) as [Heq1 Hm1].
  destruct (Hok2 Hfl2 Hfa2) as [Heq2 Hm2].
  split; [auto|]. intros Hr. constructor.
  - destruct u. specialize (Hm1 eq_refl).
    apply Forall_cons in Hm1 as [Hm1 _].
    apply (mirrored_mono (fs w1) (fs w') self self url Hfs2 eq_refl Hm1).
  - eapply Forall_impl; [by apply Hm2|].
    intros x Hx.
    apply (mirrored_mono (fs w') (fs w') self1 self x (fs_le_refl _)); auto.
Qed.

(** What the loop of [run] does. *)
Lemma run_urls_effect (urls : list str) :
  forall (self self' : t) (w w' : world) (r : result unit),
    run_urls urlopen urls self w = (r, (self', w')) ->
    run_effect urls self w r self' w'.
Proof.
  induction urls as [|url rest IH]; intros self self' w w' r; simpl.
  - intros [= <- <- <-]. split; [done|]. exists []. rewrite app_nil_r.
    split; [done|]. split; [apply fs_le_refl|].
    split; [by split|]. split; [by exists []; rewrite app_nil_r|].
    split; [by exists []; rewrite app_nil_r|]. done.
  - destruct (_download urlopen self url w) as [[u|e] [self1 w1]] eqn:Hd.
    + intros Hr. apply download_effect in Hd. apply IH in Hr.
      by eapply run_effect_seq.
    + intros [= <- <- <-]. apply download_effect in Hd.
      destruct Hd as (Hc & tr & Hlog & Hfs & Hbal & Hfl & Hfa & Hok).
      split; [done|]. exists tr. repeat (split; [done|]).
      intros H1 H2. destruct (Hok H1 H2) as [Heq _]. by split.
Qed.

Lemma run_urls_app (pre post : list str) :
  forall (self : t) (w : world),
    run_urls urlopen (pre ++ post) self w =
      match run_urls urlopen pre self w with
      | (Raise e, sw) => (Raise e, sw)
      | (Return _, (self', w')) => run_urls urlopen post self' w'
      end.
Proof.
  induction pre as [|url pre IH]; intros self w; simpl; [done|].
  destruct (_download urlopen self url w) as [[u|e] [self1 w1]]; [|done].
  apply IH.
Qed.

(** A locator that is on the disk is skipped. *)
Lemma download_mirrored (self : t) (url : str) (w : world) :
  mirrored (fs w) self url ->
  _download urlopen self url w
  = (Return tt, (set_stats (add_skipped (stats self)) self,
                 emit (EvStats (add_skipped (stats self))) w)).
Proof.
  intros (path & filename & Hp & Hd & Hf). unfold _download.
  rewrite Hp. cbv zeta.
  assert (Hc : check_paths (fs w) (dirpath_of self path)
                 (fullpath_of self path filename) = Skip)
    by by apply check_paths_skip.
  unfold dirpath_of, fullpath_of in Hc. unfold dirpath_of in Hc.
  by rewrite Hc.
Qed.

(** A run over locators that are all on the disk skips each of them and
    touches nothing else. *)
Lemma run_urls_skips (urls : list str) :
  forall (self : t) (w : world),
    Forall (mirrored (fs w) self) urls ->
    exists self' w',
      run_urls urlopen urls self w = (Return tt, (self', w'))
      /\ same_config self self'
      /\ fs w' = fs w /\ free w' = free w
      /\ skipped (stats self') = skipped (stats self) + length urls
      /\ success (stats self') = success (stats self)
      /\ read_ (stats self') = read_ (stats self)
      /\ written (stats self') = written (stats self)
      /\ fail (stats self') = fail (stats self)
      /\ fatal (stats self') = fatal (stats self).
Proof.
  induction urls as [|url rest IH]; intros self w Hall; simpl.
  - exists self, w. repeat split; try done; lia.
  - apply Forall_cons in Hall as [Hurl Hrest].
    rewrite (download_mirrored _ _ _ Hurl).
    edestruct (IH (set_stats (add_skipped (stats self)) self)
                 (emit (EvStats (add_skipped (stats self))) w))
      as (self' & w' & Hrun & (Hb & Hd & Hda & Hv) & Hfs & Hfree & Hsk & Hsu
          & Hre & Hwr & Hfl & Hfa).
    { eapply Forall_impl; [apply Hrest|]. intros x Hx.
      by apply (mirrored_mono (fs w) (fs w) self _ x (fs_le_refl _)). }
    exists self', w'. split; [done|].
    simpl in *. unfold same_config. repeat split; try done; lia.
Qed.

End EngineFacts.

(** ** The claims about the engine *)
Section EngineClaims.
Import Backup.

Variable urlopen : str -> result response.

(** A failure that is not an [HTTPError] is entered in [fatal], and the
    statement after the [try] still counts the locator as a success. *)
Lemma download_fatal_then_success (self : t) (url path filename : str)
  (w w1 : world) (fs' : gmap str node) (reason : exn) (s1 : Stats) :
  _determine_local_path self url = Return (path, filename) ->
  check_paths (fs w) (dirpath_of self path) (fullpath_of self path filename)
  = Proceed fs' ->
  try_body urlopen self url (fullpath_of self path filename) (set_fs fs' w)
  = (Some reason, (s1, w1)) ->
  is_HTTPError reason = false ->
  exists self' w',
    _download urlopen self url w = (Return tt, (self', w'))
    /\ fatal (stats self') = fatal (stats self) ++ [(url, reason)]
    /\ fail (stats self') = fail (stats self)
    /\ success (stats self') = success (stats self) + 1.
Proof.
  intros Hp Hc Ht Hh.
  destruct (try_body_effect _ _ _ _ _ _ _ _ Ht)
    as (tr & _ & _ & (Hsu & _ & Hfa & Hfl) & _).
  unfold _download. rewrite Hp. cbv zeta.
  unfold dirpath_of, fullpath_of in Hc, Ht. unfold dirpath_of in Hc, Ht.
  rewrite Hc, Ht, Hh. unfold update. cbn [fst snd].
  eexists _, _. split; [reflexivity|]. simpl. by rewrite Hsu, Hfa, Hfl.
Qed.

(** A failure that is an [HTTPError] is entered in [fail] and the method
    returns at once. *)
Lemma download_http_error (self : t) (url path filename : str)
  (w w1 : world) (fs' : gmap str node) (reason : exn) (s1 : Stats) :
  _determine_local_path self url = Return (path, filename) ->
  check_paths (fs w) (dirpath_of self path) (fullpath_of self path filename)
  = Proceed fs' ->
  try_body urlopen self url (fullpath_of self path filename) (set_fs fs' w)
  = (Some reason, (s1, w1)) ->
  is_HTTPError reason = true ->
  exists self' w',
    _download urlopen self url w = (Return tt, (self', w'))
    /\ fail (stats self') = fail (stats self) ++ [(url, reason)]
    /\ fatal (stats self') = fatal (stats self)
    /\ success (stats self') = success (stats self).
Proof.
  intros Hp Hc Ht Hh.
  destruct (try_body_effect _ _ _ _ _ _ _ _ Ht)
    as (tr & _ & _ & (Hsu & _ & Hfa & Hfl) & _).
  unfold _download. rewrite Hp. cbv zeta.
  unfold dirpath_of, fullpath_of in Hc, Ht. unfold dirpath_of in Hc, Ht.
  rewrite Hc, Ht, Hh. unfold update. cbn [fst snd].
  eexists _, _. split; [reflexivity|]. simpl. by rewrite Hsu, Hfa, Hfl.
Qed.

Lemma chunked_ends_on_empty_read (bs : N) (p : str) (s s' : Stats)
  (tr : list event) (exc : option exn) :
  chunked bs p s tr exc s' ->
  exc = None -> exists tr0, tr = tr0 ++ [EvRead bs []; EvStats s'].
Proof.
  induction 1 as [s|s e|s chunk e Hne Hle|s chunk tr exc s' Hne Hle H IH];
    intros Hexc; try done.
  - by exists [].
  - destruct (IH Hexc) as [tr0 ->]. eexists (_ :: _ :: _ :: _ :: tr0).
    reflexivity.
Qed.

(** C3 (as the code has it): a transfer goes in chunks of at most 65535
    bytes (0xFFFF, one byte less than 64KiB): every read asks for 65535
    bytes, the length of each chunk is added to [read] right after the
    read and to [written] right after the write, and a transfer without
    an exception ends on a read of no bytes. *)
Theorem transfer_in_blocks (urls : list str) (dest : str) (v : bool)
  (self : t) (url fullpath : str) (w : world) (data : response)
  (fs' : gmap str node) :
  same_config (set_verbose v (init urls dest)) self ->
  urlopen url = Return data ->
  FS.open_wb (fs w) fullpath = Return fs' ->
  exists tr exc s' w',
    try_body urlopen self url fullpath w = (exc, (s', w'))
    /\ log w' = log w ++ tr
    /\ chunked 65535 fullpath (stats self) tr exc s'
    /\ (exc = None -> exists tr0, tr = tr0 ++ [EvRead 65535 []; EvStats s']).
Proof.
  intros (Hb & _ & _ & Hv) Hu Ho. simpl in Hb, Hv.
  destruct (try_body_transfer urlopen self url fullpath w data fs' v Hu Ho Hv)
    as (tr & exc & s' & w' & Heq & Hlog & Hch & _).
  rewrite Hb in Hch. exists tr, exc, s', w'.
  repeat split; try done. by eapply chunked_ends_on_empty_read.
Qed.

(** C6: a locator with fewer than three separators makes path resolution
    fail with the [ValueError], and a run that meets it stops there with
    that exception: the state is the one that the locators before it left,
    with no entry for it in [fail] or [fatal]. *)
Theorem malformed_locator_aborts_run (self self' : t) (w w' : world)
  (pre post : list str) (record : str) :
  count_sep record < 3 ->
  data self = pre ++ record :: post ->
  run_urls urlopen pre self w = (Return tt, (self', w')) ->
  (forall b : t, _determine_local_path b record
                 = Raise (ValueError "Invalid URL part length"))
  /\ run urlopen self w
     = (Raise (ValueError "Invalid URL part length"), (self', w')).
Proof.
  intros Hc Hd Hpre.
  split; [intros b; by apply determine_local_path_malformed|].
  unfold run. rewrite Hd, run_urls_app, Hpre. simpl. unfold _download.
  by rewrite determine_local_path_malformed.
Qed.

(** C9 (as the code has it): on a [Backup] whose [verbose] was never set,
    a locator that is not skipped and whose remote and local files open is
    entered in [fatal] with the [AttributeError]; nothing is read or
    written and the local file is left empty. *)
Theorem unset_verbose_is_fatal (self : t) (url path filename : str)
  (w : world) (fs' fs'' : gmap str node) (data : response) :
  verbose self = None ->
  _determine_local_path self url = Return (path, filename) ->
  check_paths (fs w) (dirpath_of self path) (fullpath_of self path filename)
  = Proceed fs' ->
  urlopen url = Return data ->
  FS.open_wb fs' (fullpath_of self path filename) = Return fs'' ->
  exists self' w',
    _download urlopen self url w = (Return tt, (self', w'))
    /\ fatal (stats self')
       = fatal (stats self) ++ [(url, AttributeError "verbose")]
    /\ fail (stats self') = fail (stats self)
    /\ read_ (stats self') = read_ (stats self)
    /\ written (stats self') = written (stats self)
    /\ fs w' !! os_path.normpath (fullpath_of self path filename)
       = Some (File []).
Proof.
  intros Hv Hp Hc Hu Ho.
  unfold _download. rewrite Hp. cbv zeta.
  unfold dirpath_of, fullpath_of in *. unfold dirpath_of in *.
  rewrite Hc. unfold try_body. cbn [fs set_fs]. rewrite Hu, Ho, Hv.
  cbn [is_HTTPError]. unfold update. cbn [fst snd].
  eexists _, _. split; [reflexivity|]. simpl. repeat split; try done.
  unfold FS.open_wb in Ho.
  destruct (FS.ancestors_are_dirs _ _); [|done]. simpl in Ho.
  destruct (FS.is_dir _); [done|]. injection Ho as <-.
  by rewrite lookup_insert_eq.
Qed.

(** C10: all along a run [written <= read] holds: at every update of the
    statistics and at the end; and when no locator was entered in [fail]
    or [fatal], the run has written all the bytes it has read. *)
Theorem written_never_exceeds_read (self self' : t) (w w' : world)
  (r : result unit) :
  run urlopen self w = (r, (self', w')) ->
  balanced (stats self) ->
  (exists tr, log w' = log w ++ tr /\ Forall balanced_event tr)
  /\ balanced (stats self')
  /\ (written (stats self) = read_ (stats self) ->
      fail (stats self') = fail (stats self) ->
      fatal (stats self') = fatal (stats self) ->
      written (stats self') = read_ (stats self')).
Proof.
  intros Hr Hb. apply run_urls_effect in Hr.
  destruct Hr as (_ & tr & Hlog & _ & Hbal & _ & _ & Hok).
  destruct (Hbal Hb) as [Htr Hs]. split; [by exists tr|]. split; [done|].
  intros Heq Hfl Hfa. by apply Hok.
Qed.

Variable urlopen2 : str -> result response.

(** C8 (as the code has it): when a run has ended with no locator in
    [fail] or [fatal], a second run with the same locators against the
    same destination skips every locator, so that [skipped] is their
    number, and leaves the file system as it is. *)
Theorem second_run_skips_all (urls : list str) (dest : str) (v v2 : bool)
  (w w1 : world) (b1 : t) :
  run urlopen (set_verbose v (init urls dest)) w = (Return tt, (b1, w1)) ->
  fail (stats b1) = [] ->
  fatal (stats b1) = [] ->
  exists b2 w2,
    run urlopen2 (set_verbose v2 (init urls dest)) w1 = (Return tt, (b2, w2))
    /\ skipped (stats b2) = length urls
    /\ fs w2 = fs w1
    /\ success (stats b2) = 0
    /\ read_ (stats b2) = 0%N /\ written (stats b2) = 0%N.
Proof.
  intros Hr Hfl Hfa. apply run_urls_effect in Hr.
  destruct Hr as (_ & tr & _ & _ & _ & _ & _ & Hok).
  destruct (Hok Hfl Hfa) as [_ Hm]. specialize (Hm eq_refl).
  simpl in Hm.
  destruct (run_urls_skips urlopen2 urls (set_verbose v2 (init urls dest)) w1)
    as (b2 & w2 & Hrun & _ & Hfs & _ & Hsk & Hsu & Hre & Hwr & _).
  { eapply Forall_impl; [apply Hm|]. intros x Hx.
    apply (mirrored_mono (fs w1) (fs w1) (set_verbose v (init urls dest))
             (set_verbose v2 (init urls dest)) x (fs_le_refl _) eq_refl Hx). }
  exists b2, w2. unfold run. simpl in *. repeat split; try done; lia.
Qed.

End EngineClaims.

(** ** The destination in the written path *)
Section DestinationFacts.
Import Backup.

Lemma startswith_sep (p : str) :
  Py.startswith "/" p = true <-> exists rest, p = "/"%char :: rest.
Proof.
  split.
  - intros H. apply startswith_inv in H as [rest ->]. by exists rest.
  - intros [rest ->]. done.
Qed.

Lemma normpath_absolute (p : str) :
  Py.startswith "/" p = true -> Py.startswith "/" (os_path.normpath p) = true.
Proof.
  intros [rest ->]%startswith_sep. unfold os_path.normpath.
  change (Py.startswith "/" ("/"%char :: rest)) with true. cbv iota.
  destruct (_ && _); cbn [repeat app]; done.
Qed.

Lemma join_absolute (a b : str) :
  Py.startswith "/" a = true -> Py.startswith "/" (os_path.join a b) = true.
Proof.
  intros [rest ->]%startswith_sep. unfold os_path.join.
  destruct (Py.startswith "/" b) eqn:Hb; [done|].
  by destruct (_ || _).
Qed.

(** With an absolute destination the second join of [_download] gives
    back the resolved directory: the destination is in the path once. *)
Lemma absolute_destination_joined_once (self : t) (url path filename : str) :
  Py.startswith "/" (destination self) = true ->
  _determine_local_path self url = Return (path, filename) ->
  dirpath_of self path = path.
Proof.
  intros Habs. unfold _determine_local_path.
  destruct (_ <? _)%nat; [done|]. intros [= <- _].
  unfold dirpath_of, os_path.join at 1.
  by rewrite normpath_absolute by by apply join_absolute.
Qed.

End DestinationFacts.

(** ** Concrete runs *)
Import Backup.

(** C1, where the code departs from it: the connection to the host of the
    only locator is refused; the locator is entered in [fatal] and
    [success] is 1 all the same. *)
Theorem fatal_failure_counts_as_success :
  let b := set_verbose true (init [pkg_url] "/root") in
  let '(r, (b', w')) := run net_refused b empty_disk in
  r = Return tt
  /\ fatal (stats b') = [(pkg_url, URLError "Connection refused")]
  /\ fail (stats b') = []
  /\ success (stats b') = 1
  /\ read_ (stats b') = 0%N /\ written (stats b') = 0%N.
Proof. vm_compute. repeat split. Qed.

(** C3, as stated, fails: the block size is 65535 bytes, not 65536, and
    the first read of a transfer asks for 65535 bytes. *)
Lemma block_size_is_not_64KiB :
  block_size (init [pkg_url] "/root") = 65535%N
  /\ block_size (init [pkg_url] "/root") <> (64 * 1024)%N
  /\ head (log (snd (snd (run net_ok (set_verbose true (init [pkg_url] "/root"))
                            empty_disk))))
     = Some (EvRead 65535 [Byte.x00; Byte.x01; Byte.x02]).
Proof.
  split; [reflexivity|]. split; [by vm_compute|]. by vm_compute.
Qed.

(** The hypotheses of C3 hold for the transfer of [pkg_url]. *)
Lemma transfer_in_blocks_witness :
  let self := set_verbose true (init [pkg_url] "/root") in
  let fullpath : str := "/root/z/w/pkg.tar" in
  FS.open_wb (fs disk_with_dirs) fullpath
  = Return (<[os_path.normpath fullpath := File []]> (fs disk_with_dirs))
  /\ exists tr exc s' w',
    try_body net_ok self pkg_url fullpath disk_with_dirs = (exc, (s', w'))
    /\ log w' = log disk_with_dirs ++ tr
    /\ chunked 65535 fullpath (stats self) tr exc s'
    /\ (exc = None -> exists tr0, tr = tr0 ++ [EvRead 65535 []; EvStats s']).
Proof.
  intros self fullpath.
  assert (Ho : FS.open_wb (fs disk_with_dirs) fullpath
               = Return (<[os_path.normpath fullpath := File []]> (fs disk_with_dirs))).
  { apply open_wb_intro; vm_compute; reflexivity. }
  split; [exact Ho|].
  apply (transfer_in_blocks net_ok [pkg_url] "/root" true self pkg_url
           fullpath disk_with_dirs
           {| segments := [[Byte.x00; Byte.x01; Byte.x02]; [Byte.x03]];
              fault := None |}
           (<[os_path.normpath fullpath := File []]> (fs disk_with_dirs))).
  - repeat split.
  - reflexivity.
  - exact Ho.
Defined.

(** C4, where the code departs from it: with the relative destination
    [backup] the directory resolved for the locator, [backup/z/w], is
    joined to the destination once more, and the file is written at
    [backup/backup/z/w/pkg.tar]; nothing is written at
    [backup/z/w/pkg.tar]. *)
Theorem relative_destination_joined_twice :
  let b := set_verbose true (init [pkg_url] "backup") in
  _determine_local_path b pkg_url = Return ("backup/z/w" : str, "pkg.tar" : str)
  /\ let '(r, (b', w')) := run net_ok b disk_with_backup in
     r = Return tt
     /\ success (stats b') = 1
     /\ fs w' !! ("backup/backup/z/w/pkg.tar" : str)
        = Some (File [Byte.x00; Byte.x01; Byte.x02; Byte.x03])
     /\ fs w' !! ("backup/z/w/pkg.tar" : str) = None
     /\ FS.exists_ (fs w') "backup/z/w" = false.
Proof. vm_compute. repeat split. Qed.

(** The hypotheses of C6 hold for a run whose first locator is
    [http://pkg.tar]. *)
Lemma malformed_locator_aborts_run_witness :
  let self := set_verbose true (init ["http://pkg.tar" : str; pkg_url] "/root") in
  count_sep "http://pkg.tar" < 3
  /\ (forall b : t, _determine_local_path b "http://pkg.tar"
                    = Raise (ValueError "Invalid URL part length"))
  /\ run net_ok self empty_disk
     = (Raise (ValueError "Invalid URL part length"), (self, empty_disk)).
Proof.
  intros self. split; [vm_compute; lia|].
  apply (malformed_locator_aborts_run net_ok self self empty_disk empty_disk
           [] [pkg_url] "http://pkg.tar").
  - vm_compute. lia.
  - reflexivity.
  - reflexivity.
Defined.

(** C8, as stated, fails: the first run ends, with the locator in [fail]
    (the server answered 404) and no file on the disk; the second run
    tries the locator again and skips nothing. *)
Lemma second_run_retries_failed_locator :
  let b := set_verbose true (init [pkg_url] "/root") in
  let '(r1, (b1, w1)) := run net_404 b empty_disk in
  let '(r2, (b2, w2)) := run net_404 b w1 in
  r1 = Return tt /\ r2 = Return tt
  /\ length (data b) = 1
  /\ skipped (stats b2) = 0
  /\ fail (stats b2) = [(pkg_url, HTTPError 404)].
Proof. vm_compute. repeat split. Qed.

(** The hypotheses of C8 hold for a first run that mirrors [pkg_url]. *)
Lemma second_run_skips_all_witness :
  let res := run net_ok (set_verbose true (init [pkg_url] "/root")) empty_disk in
  fst res = Return tt
  /\ fail (stats (fst (snd res))) = []
  /\ fatal (stats (fst (snd res))) = []
  /\ exists b2 w2,
      run net_404 (set_verbose true (init [pkg_url] "/root")) (snd (snd res))
      = (Return tt, (b2, w2))
      /\ skipped (stats b2) = length [pkg_url]
      /\ fs w2 = fs (snd (snd res))
      /\ success (stats b2) = 0
      /\ read_ (stats b2) = 0%N /\ written (stats b2) = 0%N.
Proof.
  intros res. split; [by vm_compute|]. split; [by vm_compute|].
  split; [by vm_compute|].
  apply (second_run_skips_all net_ok net_404 [pkg_url] "/root" true true
           empty_disk (snd (snd res)) (fst (snd res))).
  - vm_compute. reflexivity.
  - vm_compute. reflexivity.
  - vm_compute. reflexivity.
Defined.

(** C9, as stated, fails: [verbose] is not set and the locator is not
    skipped, but the server answers 404: the locator is entered in
    [fail], and [fatal] stays empty. *)
Lemma unset_verbose_http_error_is_fail :
  let b := init [pkg_url] "/root" in
  verbose b = None
  /\ let '(r, (b', w')) := run net_404 b empty_disk in
     r = Return tt
     /\ skipped (stats b') = 0
     /\ fatal (stats b') = []
     /\ fail (stats b') = [(pkg_url, HTTPError 404)].
Proof. vm_compute. repeat split. Qed.

(** The hypotheses of C9 hold for [pkg_url] when its directory is there. *)
Lemma unset_verbose_is_fatal_witness :
  let self := init [pkg_url] "/root" in
  let path : str := "/root/z/w" in
  let filename : str := "pkg.tar" in
  verbose self = None
  /\ _determine_local_path self pkg_url = Return (path, filename)
  /\ exists self' w',
    _download net_ok self pkg_url disk_with_dirs = (Return tt, (self', w'))
    /\ fatal (stats self')
       = fatal (stats self) ++ [(pkg_url, AttributeError "verbose")]
    /\ fail (stats self') = fail (stats self)
    /\ read_ (stats self') = read_ (stats self)
    /\ written (stats self') = written (stats self)
    /\ fs w' !! os_path.normpath (fullpath_of self path filename)
       = Some (File []).
Proof.
  intros self path filename. split; [reflexivity|].
  assert (Hp : _determine_local_path self pkg_url = Return (path, filename))
    by (vm_compute; reflexivity).
  split; [exact Hp|].
  apply (unset_verbose_is_fatal net_ok self pkg_url path filename
           disk_with_dirs (fs disk_with_dirs)
           (<[os_path.normpath (fullpath_of self path filename) := File []]>
              (fs disk_with_dirs))
           {| segments := [[Byte.x00; Byte.x01; Byte.x02]; [Byte.x03]];
              fault := None |}).
  - reflexivity.
  - exact Hp.
  - apply check_paths_present; vm_compute; reflexivity.
  - reflexivity.
  - apply open_wb_intro; vm_compute; reflexivity.
Defined.

(** The hypotheses of C10 hold for the run that mirrors [pkg_url]. *)
Lemma written_never_exceeds_read_witness :
  let self := set_verbose true (init [pkg_url] "/root") in
  let res := run net_ok self empty_disk in
  balanced (stats self)
  /\ (exists tr, log (snd (snd res)) = log empty_disk ++ tr
                 /\ Forall balanced_event tr)
  /\ balanced (stats (fst (snd res)))
  /\ (written (stats self) = read_ (stats self) ->
      fail (stats (fst (snd res))) = fail (stats self) ->
      fatal (stats (fst (snd res))) = fatal (stats self) ->
      written (stats (fst (snd res))) = read_ (stats (fst (snd res)))).
Proof.
  intros self res.
  assert (Hb : balanced (stats self)) by (unfold balanced; simpl; lia).
  split; [done|].
  apply (written_never_exceeds_read net_ok self (fst (snd res)) empty_disk
           (snd (snd res)) (fst res)); [|done].
  vm_compute. reflexivity.
Defined.


(** On a disk with room for two bytes the first chunk of three bytes is
    read and counted, its write fails, and [written] stays behind [read]. *)
Example full_disk_ex :
  let w := {| fs := fs disk_with_dirs; free := 2; log := [] |} in
  let '(r, (b', w')) :=
    run net_ok (set_verbose true (init [pkg_url] "/root")) w in
  r = Return tt
  /\ read_ (stats b') = 3%N /\ written (stats b') = 0%N
  /\ fatal (stats b') = [(pkg_url, OSError "No space left on device")].
Proof. vm_compute. repeat split. Qed.

(** * Further properties *)

(** ** The outcome of one download *)
Section DownloadCases.

Variable urlopen : str -> result response.

(** The statistics after [_download], case by case. *)
Lemma download_cases (self self' : t) (url : str) (w w' : world)
  (r : result unit) :
  _download urlopen self url w = (r, (self', w')) ->
  (exists e, r = Raise e /\ self' = self /\ w' = w)
  \/ (r = Return tt /\ same_config self self'
      /\ exists s1,
          counters_kept (stats self) s1
          /\ (stats self' = add_skipped (stats self)
              \/ (exists reason, is_HTTPError reason = true
                                 /\ stats self' = add_fail url reason s1)
              \/ (exists reason, is_HTTPError reason = false
                                 /\ stats self'
                                    = add_success (add_fatal url reason s1))
              \/ stats self' = add_success s1)).
Proof.
  unfold _download.
  destruct (_determine_local_path self url) as [[path filename]|e] eqn:Hp.
  2:{ intros [= <- <- <-]. left. by exists e. }
  cbv zeta.
  destruct (check_paths _ _ _) as [e| |fs'] eqn:Hc.
  - intros [= <- <- <-]. left. by exists e.
  - unfold update. cbn [fst snd]. intros [= <- <- <-]. right.
    split; [done|]. split; [done|]. exists (stats self). split; [done|].
    by left.
  - destruct (try_body _ _ _ _ _) as [exc [s1 w1]] eqn:Ht.
    destruct (try_body_effect _ _ _ _ _ _ _ _ Ht) as (tr & _ & _ & Hk & _).
    destruct exc as [reason|].
    + destruct (is_HTTPError reason) eqn:Hh.
      * unfold update. cbn [fst snd]. intros [= <- <- <-]. right.
        split; [done|]. split; [done|]. exists s1. split; [done|].
        right. left. by exists reason.
      * unfold update. cbn [fst snd]. intros [= <- <- <-]. right.
        split; [done|]. split; [done|]. exists s1. split; [done|].
        right. right. left. by exists reason.
    + unfold update. cbn [fst snd]. intros [= <- <- <-]. right.
      split; [done|]. split; [done|]. exists s1. split; [done|].
      by right; right; right.
Qed.

Lemma download_counts (self self' : t) (url : str) (w w' : world) (u : unit) :
  _download urlopen self url w = (Return u, (self', w')) ->
  processed (stats self') = processed (stats self) + 1
  /\ length (fatal (stats self')) + success (stats self)
     <= length (fatal (stats self)) + success (stats self').
Proof.
  intros H. apply download_cases in H as [(e & He & _)|(_ & _ & s1 & Hk & Hc)];
    [done|].
  destruct Hk as (Hsu & Hsk & Hfa & Hfl). unfold processed.
  destruct Hc as [->|[(reason & _ & ->)|[(reason & _ & ->)| ->]]]; simpl;
    rewrite ?length_app, ?Hsu, ?Hsk, ?Hfa, ?Hfl; simpl; lia.
Qed.

(** X1: a run that ends has counted every locator of its list exactly once
    in [success], [skipped] or [fail]; the entries of [fatal] are counted
    in [success] as well, so [fatal] never grows by more than [success]. *)
Theorem every_locator_is_counted (self self' : t) (w w' : world) :
  run urlopen self w = (Return tt, (self', w')) ->
  processed (stats self') = processed (stats self) + length (data self)
  /\ length (fatal (stats self')) + success (stats self)
     <= length (fatal (stats self)) + success (stats self').
Proof.
  unfold run. generalize (data self) as urls. intros urls. revert self w.
  induction urls as [|url rest IH]; intros self w; simpl.
  - intros [= <- <-]. lia.
  - destruct (_download urlopen self url w) as [[u|e] [self1 w1]] eqn:Hd;
      [|done].
    intros Hr. apply download_counts in Hd as [H1 H2].
    apply IH in Hr as [H3 H4]. lia.
Qed.

Lemma download_classified (self self' : t) (url : str) (w w' : world)
  (r : result unit) :
  _download urlopen self url w = (r, (self', w')) ->
  classified (stats self) ->
  classified (stats self')
  /\ (forall ue, ue ∈ fail (stats self') ->
                 ue ∈ fail (stats self) \/ fst ue = url)
  /\ (forall ue, ue ∈ fatal (stats self') ->
                 ue ∈ fatal (stats self) \/ fst ue = url).
Proof.
  intros H [Hfl Hfa].
  apply download_cases in H as [(e & _ & -> & _)|(_ & _ & s1 & Hk & Hc)].
  { split; [done|]. split; auto. }
  destruct Hk as (Hsu & Hsk & Hfa1 & Hfl1). unfold classified.
  destruct Hc as [->|[(reason & Hh & ->)|[(reason & Hh & ->)| ->]]]; simpl;
    rewrite ?Hfa1, ?Hfl1.
  - split; [done|]. split; auto.
  - split; [split; [|done]|split; [|by auto]].
    + apply Forall_app. split; [done|]. by repeat constructor.
    + intros ue [?|Hin]%elem_of_app; [by left|right].
      by apply list_elem_of_singleton in Hin as ->.
  - split; [split; [done|]|split; [by auto|]].
    + apply Forall_app. split; [done|]. by repeat constructor.
    + intros ue [?|Hin]%elem_of_app; [by left|right].
      by apply list_elem_of_singleton in Hin as ->.
  - split; [done|]. split; auto.
Qed.

(** X2: a run enters in [fail] only [HTTPError]s and in [fatal] only other
    exceptions, and every entry it adds names a locator of its list. *)
Theorem failures_are_classified (self self' : t) (w w' : world)
  (r : result unit) :
  run urlopen self w = (r, (self', w')) ->
  classified (stats self) ->
  classified (stats self')
  /\ (forall ue, ue ∈ fail (stats self') ->
                 ue ∈ fail (stats self) \/ fst ue ∈ data self)
  /\ (forall ue, ue ∈ fatal (stats self') ->
                 ue ∈ fatal (stats self) \/ fst ue ∈ data self).
Proof.
  unfold run. generalize (data self) as urls. intros urls. revert self w.
  induction urls as [|url rest IH]; intros self w; simpl.
  - intros [= <- <- <-] Hc. split; [done|]. split; auto.
  - destruct (_download urlopen self url w) as [[u|e] [self1 w1]] eqn:Hd.
    + intros Hr Hc. destruct (download_classified _ _ _ _ _ _ Hd Hc)
        as (Hc1 & Hfl1 & Hfa1).
      destruct (IH _ _ Hr Hc1) as (Hc2 & Hfl2 & Hfa2).
      split; [done|]. split.
      * intros ue Hin. destruct (Hfl2 ue Hin) as [H1|H1].
        -- destruct (Hfl1 ue H1) as [?|<-]; [by left|right; by left].
        -- right. by right.
      * intros ue Hin. destruct (Hfa2 ue Hin) as [H1|H1].
        -- destruct (Hfa1 ue H1) as [?|<-]; [by left|right; by left].
        -- right. by right.
    + intros [= <- <- <-] Hc. destruct (download_classified _ _ _ _ _ _ Hd Hc)
        as (Hc1 & Hfl1 & Hfa1).
      split; [done|]. split.
      * intros ue Hin. destruct (Hfl1 ue Hin) as [?|<-]; [by left|right; by left].
      * intros ue Hin. destruct (Hfa1 ue Hin) as [?|<-]; [by left|right; by left].
Qed.

End DownloadCases.

(** ** What a download touches *)
Section DownloadFrame.

Variable urlopen : str -> result response.

Lemma mkdir_chain_frame (chain : list str) :
  forall (f f' : gmap str node) (k : str),
    FS.mkdir_chain f chain = Return f' -> k ∉ chain -> f' !! k = f !! k.
Proof.
  induction chain as [|q chain IH]; intros f f' k; simpl.
  - by intros [= <-].
  - intros H [Hq Hk]%not_elem_of_cons.
    destruct (FS.lookup_node f q) as [[|c]|]; [by eapply IH|done|].
    rewrite (IH _ _ _ H Hk). by rewrite lookup_insert_ne.
Qed.

Lemma write_frame (f : gmap str node) (p k : str) (chunk : bytes) :
  k <> os_path.normpath p -> FS.write f p chunk !! k = f !! k.
Proof.
  intros Hk. unfold FS.write. destruct (f !! _) as [[|c]|]; try done.
  by rewrite lookup_insert_ne.
Qed.

Lemma open_wb_frame (f f' : gmap str node) (p k : str) :
  FS.open_wb f p = Return f' -> k <> os_path.normpath p -> f' !! k = f !! k.
Proof.
  unfold FS.open_wb. destruct (negb _); [done|]. destruct (FS.is_dir _); [done|].
  intros [= <-] Hk. by rewrite lookup_insert_ne.
Qed.

Lemma transfer_loop_frame (fuel : nat) (bs : N) (p k : str) :
  k <> os_path.normpath p ->
  forall (data : response) (chunk : bytes) (st st' : Stats * world)
         (exc : option exn),
    transfer_loop fuel bs p data chunk st = (exc, st') ->
    fs (snd st') !! k = fs (snd st) !! k.
Proof.
  intros Hk. induction fuel as [|fuel IH]; intros data chunk st st' exc; simpl.
  - by intros [= <- <-].
  - destruct chunk as [|c chunk]; [by intros [= <- <-]|].
    destruct (_ <? _)%N; [by intros [= <- <-]|].
    destruct (read data bs) as [[chunk' data']|e].
    + intros H. apply IH in H. rewrite H. simpl. by apply write_frame.
    + intros [= <- <-]. simpl. by apply write_frame.
Qed.

Lemma try_body_frame (self : t) (url fullpath k : str) (w : world)
  (exc : option exn) (st' : Stats * world) :
  k <> os_path.normpath fullpath ->
  try_body urlopen self url fullpath w = (exc, st') ->
  fs (snd st') !! k = fs w !! k.
Proof.
  intros Hk. unfold try_body.
  destruct (urlopen url) as [data|e]; [|by intros [= <- <-]].
  destruct (FS.open_wb (fs w) fullpath) as [fs'|e] eqn:Ho; [|by intros [= <- <-]].
  pose proof (open_wb_frame _ _ _ _ Ho Hk) as Hfs.
  destruct (verbose self); [|by intros [= <- <-]].
  destruct (read data (block_size self)) as [[chunk data']|e];
    [|by intros [= <- <-]].
  unfold transfer. intros H. apply (transfer_loop_frame _ _ _ _ Hk) in H.
  by rewrite H.
Qed.

Lemma download_frame (self self' : t) (url path filename k : str)
  (w w' : world) (r : result unit) :
  _download urlopen self url w = (r, (self', w')) ->
  _determine_local_path self url = Return (path, filename) ->
  k <> os_path.normpath (fullpath_of self path filename) ->
  k ∉ chain_of (dirpath_of self path) ->
  fs w' !! k = fs w !! k.
Proof.
  intros H Hp Hk Hc. unfold _download in H. rewrite Hp in H. cbv zeta in H.
  unfold fullpath_of, dirpath_of, chain_of in *. unfold dirpath_of in *.
  destruct (check_paths _ _ _) as [e| |fs'] eqn:Hcp.
  - by injection H as <- <- <-.
  - unfold update in H. cbn [fst snd] in H. by injection H as <- <- <-.
  - assert (Hfs' : fs' !! k = fs w !! k).
    { unfold check_paths in Hcp. destruct (negb _).
      - destruct (FS.makedirs _ _) as [f1|e] eqn:Hm; [|done].
        injection Hcp as <-. unfold FS.makedirs in Hm.
        destruct (FS.exists_ _ _); [done|]. by eapply mkdir_chain_frame.
      - destruct (FS.exists_ _ _); [done|]. by injection Hcp as <-. }
    destruct (try_body _ _ _ _ _) as [exc [s1 w1]] eqn:Ht.
    apply (try_body_frame _ _ _ k) in Ht; [|done]. simpl in Ht.
    destruct exc as [reason|]; [destruct (is_HTTPError reason)|];
      unfold update in H; cbn [fst snd] in H; injection H as <- <- <-;
      simpl; congruence.
Qed.

(** X3: a run changes the file system only at the target files of its
    locators and at the directories that lead to them: every other path
    holds after the run what it held before. *)
Theorem run_touches_only_its_targets (self self' : t) (w w' : world)
  (r : result unit) (k : str) :
  run urlopen self w = (r, (self', w')) ->
  (forall url path filename,
     url ∈ data self ->
     _determine_local_path self url = Return (path, filename) ->
     k <> os_path.normpath (fullpath_of self path filename)
     /\ k ∉ chain_of (dirpath_of self path)) ->
  fs w' !! k = fs w !! k.
Proof.
  unfold run. generalize (data self) as urls. intros urls. revert self w.
  induction urls as [|url rest IH]; intros self w; simpl.
  - by intros [= <- <- <-].
  - intros H Hall.
    destruct (_download urlopen self url w) as [r1 [self1 w1]] eqn:Hd.
    assert (Hk1 : fs w1 !! k = fs w !! k).
    { destruct (_determine_local_path self url) as [[path filename]|e] eqn:Hp.
      - destruct (Hall url path filename) as [H1 H2]; [by left|done|].
        by eapply download_frame.
      - unfold _download in Hd. rewrite Hp in Hd. by injection Hd as <- <- <-. }
    destruct r1 as [u|e]; [|by injection H as <- <- <-].
    destruct (download_effect _ _ _ _ _ _ _ Hd) as ((_ & Hdest & _) & _).
    rewrite <- Hk1. apply (IH _ _ H). intros url' path filename Hin Hp.
    rewrite (determine_local_path_dest self self1) in Hp by done.
    destruct (Hall url' path filename) as [H1 H2]; [by right|done|].
    unfold fullpath_of, dirpath_of in *. by rewrite Hdest.
Qed.

Lemma try_body_opened (self : t) (url fullpath : str) (w : world)
  (data : response) (fs'' : gmap str node) (exc : option exn)
  (st' : Stats * world) :
  urlopen url = Return data ->
  FS.open_wb (fs w) fullpath = Return fs'' ->
  try_body urlopen self url fullpath w = (exc, st') ->
  fs_le fs'' (fs (snd st')).
Proof.
  intros Hu Ho. destruct (verbose self) as [v|] eqn:Hv.
  - destruct (try_body_transfer urlopen self url fullpath w data fs'' v Hu Ho Hv)
      as (tr & exc0 & s0 & w0 & Heq & _ & _ & Hfs).
    rewrite Heq. by intros [= <- <-].
  - unfold try_body. rewrite Hu, Ho, Hv. intros [= <- <-]. apply fs_le_refl.
Qed.

(** X4: once the remote resource and the local file of a locator have been
    opened, the download returns, and from then on the locator is skipped,
    whatever the server does and however the transfer ended: a partial or
    empty file is taken for the mirrored one. *)
Theorem opened_file_is_never_fetched_again (self : t)
  (url path filename : str) (w : world) (fs' fs'' : gmap str node)
  (data : response) :
  _determine_local_path self url = Return (path, filename) ->
  check_paths (fs w) (dirpath_of self path) (fullpath_of self path filename)
  = Proceed fs' ->
  urlopen url = Return data ->
  FS.open_wb fs' (fullpath_of self path filename) = Return fs'' ->
  exists self' w',
    _download urlopen self url w = (Return tt, (self', w'))
    /\ forall urlopen2 : str -> result response,
        _download urlopen2 self' url w'
        = (Return tt, (set_stats (add_skipped (stats self')) self',
                       emit (EvStats (add_skipped (stats self'))) w')).
Proof.
  intros Hp Hc Hu Ho.
  destruct (check_paths_proceed _ _ _ _ Hc) as [_ Hd].
  destruct (open_wb_exists _ _ _ Ho) as [Hle Hf].
  destruct (try_body urlopen self url (fullpath_of self path filename)
              (set_fs fs' w)) as [exc [s1 w1]] eqn:Ht.
  pose proof (try_body_opened self url _ (set_fs fs' w) data fs'' exc (s1, w1)
                Hu Ho Ht) as Hfs. simpl in Hfs.
  assert (Hm : forall (self' : t) (w' : world),
             destination self' = destination self -> fs w' = fs w1 ->
             mirrored (fs w') self' url).
  { intros self' w' Hdest Hw. exists path, filename.
    rewrite (determine_local_path_dest self self') by done.
    unfold fullpath_of, dirpath_of in *. rewrite Hdest, Hw.
    split; [done|]. split.
    - eapply exists_mono; [|apply Hd]. by eapply fs_le_trans.
    - by eapply exists_mono. }
  unfold _download. rewrite Hp. cbv zeta.
  unfold fullpath_of, dirpath_of in Hc, Ht. unfold dirpath_of in Hc, Ht.
  rewrite Hc, Ht.
  destruct exc as [reason|]; [destruct (is_HTTPError reason)|];
    unfold update; cbn [fst snd]; eexists _, _; (split; [reflexivity|]);
    intros urlopen2; apply download_mirrored; by apply Hm.
Qed.

Lemma mkdir_chain_blocked (chain : list str) :
  forall (f : gmap str node) (q : str) (c : bytes),
    q ∈ chain -> FS.lookup_node f q = Some (File c) ->
    FS.mkdir_chain f chain = Raise (OSError "Not a directory").
Proof.
  induction chain as [|q1 chain IH]; intros f q c Hin Hq.
  - by apply not_elem_of_nil in Hin.
  - simpl. apply elem_of_cons in Hin as [<-|Hin]; [by rewrite Hq|].
    destruct (FS.lookup_node f q1) as [[|c1]|] eqn:E; [by eapply IH|done|].
    apply (IH _ q c); [done|].
    assert (q1 <> q) by congruence.
    unfold FS.lookup_node in *. destruct (FS.implicit_dir q); [done|].
    by rewrite lookup_insert_ne.
Qed.

(** X5: when the directory of a locator is not there and a file stands on
    the way to it, the directories cannot be made: the [OSError] leaves
    [_download] and ends the run at this locator, with nothing entered in
    the statistics. *)
Theorem blocked_directory_ends_the_run (self : t) (url path filename q : str)
  (rest : list str) (w : world) (c : bytes) :
  _determine_local_path self url = Return (path, filename) ->
  FS.exists_ (fs w) (dirpath_of self path) = false ->
  q ∈ chain_of (dirpath_of self path) ->
  FS.lookup_node (fs w) q = Some (File c) ->
  run_urls urlopen (url :: rest) self w
  = (Raise (OSError "Not a directory"), (self, w)).
Proof.
  intros Hp He Hq Hf. simpl. unfold _download. rewrite Hp. cbv zeta.
  unfold dirpath_of, chain_of in *. unfold check_paths. rewrite He.
  cbn [negb]. unfold FS.makedirs. rewrite He.
  by rewrite (mkdir_chain_blocked _ _ q c Hq Hf).
Qed.

End DownloadFrame.

(** X6: a locator whose directory and file are on the disk is skipped: only
    [skipped] changes, the file system and the free space stay as they are,
    and the server is not asked, so that every network gives this result. *)
Theorem existing_file_is_skipped (urlopen : str -> result response) (self : t)
  (url path filename : str) (w : world) :
  _determine_local_path self url = Return (path, filename) ->
  FS.exists_ (fs w) (dirpath_of self path) = true ->
  FS.exists_ (fs w) (fullpath_of self path filename) = true ->
  exists self' w',
    _download urlopen self url w = (Return tt, (self', w'))
    /\ stats self' = add_skipped (stats self)
    /\ fs w' = fs w /\ free w' = free w
    /\ log w' = log w ++ [EvStats (add_skipped (stats self))].
Proof.
  intros Hp Hd Hf. eexists _, _. split.
  - apply download_mirrored. by exists path, filename.
  - done.
Qed.

(** X7: path resolution looks at the last three separators only: two
    locators that agree from the third-from-last separator on, whatever
    comes before it (scheme, host, outer directories), resolve to the same
    directory and file name. *)
Theorem locators_with_the_same_tail_collide (self : t)
  (head1 head2 s1 s2 f : str) :
  "/"%char ∉ s1 -> "/"%char ∉ s2 -> "/"%char ∉ f ->
  _determine_local_path self (head1 ++ "/" ++ s1 ++ "/" ++ s2 ++ "/" ++ f)
  = _determine_local_path self (head2 ++ "/" ++ s1 ++ "/" ++ s2 ++ "/" ++ f).
Proof.
  intros H1 H2 Hf. by rewrite !determine_local_path_cut.
Qed.

(** X8: with an absolute destination the file of a locator is written in
    the directory that path resolution gives: the second join with the
    destination changes nothing. *)
Theorem absolute_destination_target (self : t) (url path filename : str) :
  Py.startswith "/" (destination self) = true ->
  _determine_local_path self url = Return (path, filename) ->
  dirpath_of self path = path
  /\ fullpath_of self path filename = os_path.join path filename
  /\ Py.startswith "/" path = true.
Proof.
  intros Habs Hp.
  pose proof (absolute_destination_joined_once self url path filename Habs Hp)
    as Hd.
  split; [done|]. split; [unfold fullpath_of; by rewrite Hd|].
  unfold _determine_local_path in Hp. destruct (_ <? _)%nat; [done|].
  injection Hp as <- _. by apply normpath_absolute, join_absolute.
Qed.

(** ** A transfer that goes through *)
Section FullTransfer.

Variable urlopen : str -> result response.

Lemma read_body (data : response) (bs : N) :
  fault data = None -> (0 < bs)%N ->
  Forall (fun seg => seg <> []) (segments data) ->
  exists chunk data',
    read data bs = Return (chunk, data')
    /\ chunk ++ body data' = body data
    /\ fault data' = None
    /\ Forall (fun seg => seg <> []) (segments data')
    /\ (chunk = [] -> segments data' = []).
Proof.
  intros Hf Hbs Hne. unfold read, body.
  destruct (segments data) as [|seg rest] eqn:Hs.
  - rewrite Hf. exists [], data. rewrite Hs. by repeat split.
  - apply Forall_cons in Hne as [Hseg Hrest].
    destruct (N.leb_spec (N.of_nat (length seg)) bs) as [Hle|Hgt].
    + eexists _, _. split; [reflexivity|]. simpl. by repeat split.
    + eexists _, _. split; [reflexivity|]. simpl.
      split; [by rewrite app_assoc, take_drop|]. split; [done|]. split.
      * constructor; [|done]. intros Hd.
        apply (f_equal length) in Hd. rewrite length_drop in Hd. simpl in Hd. lia.
      * intros Ht. apply (f_equal length) in Ht. rewrite length_take in Ht.
        simpl in Ht. destruct seg; [done|]. simpl in *. lia.
Qed.

(** The loop on a response without fault or empty segment, with room on
    the disk: the file gets the pending chunk and the rest of the body. *)
Lemma transfer_loop_body (fuel : nat) (bs : N) (p : str) :
  (0 < bs)%N ->
  forall (data : response) (chunk content : bytes) (s : Stats) (w : world),
    loop_fuel data chunk <= fuel ->
    fault data = None ->
    Forall (fun seg => seg <> []) (segments data) ->
    (chunk = [] -> segments data = []) ->
    fs w !! os_path.normpath p = Some (File content) ->
    (N.of_nat (length chunk + length (body data)) <= free w)%N ->
    exists s' w',
      transfer_loop fuel bs p data chunk (s, w) = (None, (s', w'))
      /\ fs w' !! os_path.normpath p
         = Some (File (content ++ chunk ++ body data))
      /\ read_ s' = (read_ s + N.of_nat (length (body data)))%N
      /\ written s'
         = (written s + N.of_nat (length chunk + length (body data)))%N
      /\ free w' = (free w - N.of_nat (length chunk + length (body data)))%N
      /\ counters_kept s s'.
Proof.
  intros Hbs. induction fuel as [|fuel IH];
    intros data chunk content s w Hfuel Hf Hne Hend Hfile Hfree.
  { destruct chunk; simpl in Hfuel; lia. }
  destruct chunk as [|c chunk].
  { exists s, w. unfold body. rewrite (Hend eq_refl). simpl.
    rewrite app_nil_r. repeat split; try done; lia. }
  cbn [transfer_loop]. cbv zeta. cbn [fst snd].
  destruct (N.ltb_spec (free w) (N.of_nat (length (c :: chunk)))) as [Hlt|_].
  { rewrite Nat2N.inj_add in Hfree. lia. }
  destruct (read_body data bs Hf Hbs Hne)
    as (chunk' & data' & Hr & Hb & Hf' & Hne' & Hend').
  rewrite Hr. unfold update, emit, write_chunk. cbn [fst snd fs log free].
  unfold FS.write. rewrite Hfile.
  match goal with
  | |- context [transfer_loop fuel bs p data' chunk' (?s0, ?w0)] =>
      destruct (IH data' chunk' (content ++ c :: chunk) s0 w0)
        as (s' & w' & Heq & Hfile' & Hre & Hwr & Hfr & Hk)
  end.
  - by apply (loop_fuel_next data data' bs c chunk chunk' _ Hr).
  - done.
  - done.
  - done.
  - simpl. by rewrite lookup_insert_eq.
  - simpl. apply (f_equal length) in Hb. rewrite length_app in Hb.
    rewrite !Nat2N.inj_add in *. simpl in *. lia.
  - exists s', w'. split; [done|].
    apply (f_equal length) in Hb as Hlen. rewrite length_app in Hlen.
    split; [rewrite Hfile', <- Hb; by rewrite <- !app_assoc|].
    simpl in Hre, Hwr, Hfr.
    split; [rewrite Hre, <- Hlen, Nat2N.inj_add; lia|].
    split; [rewrite Hwr, <- Hlen, !Nat2N.inj_add; simpl; lia|].
    split; [rewrite Hfr, <- Hlen, !Nat2N.inj_add; simpl; lia|].
    destruct Hk as (? & ? & ? & ?). by repeat split.
Qed.

(** X9: when the server delivers the body of a locator without fault, the
    disk has room for it and the local file opens, the download writes
    exactly the bytes delivered, in order, to the target file, adds their
    number to [read] and to [written], and counts one success. *)
Theorem download_writes_the_body (self : t) (url path filename : str)
  (w : world) (fs' fs'' : gmap str node) (data : response) (v : bool) :
  verbose self = Some v ->
  (0 < block_size self)%N ->
  _determine_local_path self url = Return (path, filename) ->
  check_paths (fs w) (dirpath_of self path) (fullpath_of self path filename)
  = Proceed fs' ->
  urlopen url = Return data ->
  fault data = None ->
  Forall (fun seg => seg <> []) (segments data) ->
  (N.of_nat (length (body data)) <= free w)%N ->
  FS.open_wb fs' (fullpath_of self path filename) = Return fs'' ->
  exists self' w',
    _download urlopen self url w = (Return tt, (self', w'))
    /\ fs w' !! os_path.normpath (fullpath_of self path filename)
       = Some (File (body data))
    /\ read_ (stats self')
       = (read_ (stats self) + N.of_nat (length (body data)))%N
    /\ written (stats self')
       = (written (stats self) + N.of_nat (length (body data)))%N
    /\ success (stats self') = success (stats self) + 1
    /\ skipped (stats self') = skipped (stats self)
    /\ fail (stats self') = fail (stats self)
    /\ fatal (stats self') = fatal (stats self)
    /\ free w' = (free w - N.of_nat (length (body data)))%N.
Proof.
  intros Hv Hbs Hp Hc Hu Hf Hne Hfree Ho.
  destruct (read_body data (block_size self) Hf Hbs Hne)
    as (chunk & data' & Hr & Hb & Hf' & Hne' & Hend).
  assert (Hfile : fs'' !! os_path.normpath (fullpath_of self path filename)
                  = Some (File [])).
  { unfold FS.open_wb in Ho. destruct (negb _); [done|].
    destruct (FS.is_dir _); [done|]. injection Ho as <-.
    by rewrite lookup_insert_eq. }
  apply (f_equal length) in Hb as Hlen. rewrite length_app in Hlen.
  edestruct (transfer_loop_body (response_size data' + 2) (block_size self)
               (fullpath_of self path filename) Hbs data' chunk []
               (add_read (length chunk) (stats self))
               {| fs := fs''; free := free w;
                  log := (log w ++ [EvRead (block_size self) chunk])
                           ++ [EvStats (add_read (length chunk) (stats self))] |})
    as (s' & w' & Heq & Hfile' & Hre & Hwr & Hfr & (Hsu & Hsk & Hfa & Hfl));
    try done.
  { destruct chunk; simpl; lia. }
  { simpl. lia. }
  unfold _download. rewrite Hp. cbv zeta.
  unfold fullpath_of, dirpath_of in *. unfold dirpath_of in *.
  rewrite Hc. unfold try_body. cbn [fs set_fs]. rewrite Hu, Ho, Hv, Hr.
  unfold transfer, update, emit, set_fs. cbn [fst snd fs log free].
  rewrite Heq. cbn [fst snd].
  eexists _, _. split; [reflexivity|]. simpl in *.
  split; [by rewrite Hfile', Hb|].
  split; [rewrite Hre, <- Hlen, Nat2N.inj_add; lia|].
  split; [rewrite Hwr, <- Hlen; lia|].
  split; [lia|]. split; [done|]. split; [done|]. split; [done|].
  rewrite Hfr, <- Hlen. lia.
Qed.

End FullTransfer.

(** ** The lines that the reader keeps *)
Section CleanLocators.

Lemma lstrip_head (s rest : str) (c : ascii) :
  Py.lstrip s = c :: rest -> Py.isspace c = false.
Proof.
  induction s as [|d s IH]; [done|]. simpl.
  destruct (Py.isspace d) eqn:Hd; [done|]. by intros [= <- _].
Qed.

Lemma lstrip_suffix (s : str) : exists pre, s = pre ++ Py.lstrip s.
Proof.
  induction s as [|d s [pre IH]]; [by exists []|]. simpl.
  destruct (Py.isspace d); [|by exists []].
  exists (d :: pre). simpl. by rewrite <- IH.
Qed.

Lemma last_rev (l : str) : last (rev l) = head l.
Proof. destruct l as [|x l]; [done|]. simpl. by rewrite last_snoc. Qed.

Lemma head_rev (l : str) : head (rev l) = last l.
Proof. rewrite <- (rev_involutive l) at 2. by rewrite last_rev. Qed.

Lemma last_app_nonempty (pre l : str) : l <> [] -> last (pre ++ l) = last l.
Proof.
  intros Hl. destruct (exists_last Hl) as (l' & x & ->).
  by rewrite app_assoc, !last_snoc.
Qed.

Lemma strip_last (s : str) (c : ascii) :
  last (Py.strip s) = Some c -> Py.isspace c = false.
Proof.
  unfold Py.strip, Py.rstrip. rewrite last_rev.
  destruct (Py.lstrip (rev (Py.lstrip s))) as [|d rest] eqn:E; [done|].
  intros [= <-]. by eapply lstrip_head.
Qed.

Lemma strip_first (s rest : str) (c : ascii) :
  Py.strip s = c :: rest -> Py.isspace c = false.
Proof.
  unfold Py.strip, Py.rstrip. intros H.
  assert (Hh : head (rev (Py.lstrip (rev (Py.lstrip s)))) = Some c)
    by by rewrite H.
  rewrite head_rev in Hh.
  destruct (lstrip_suffix (rev (Py.lstrip s))) as [pre Hpre].
  assert (Hne : Py.lstrip (rev (Py.lstrip s)) <> []).
  { intros E. by rewrite E in Hh. }
  rewrite <- (last_app_nonempty pre) in Hh by done.
  rewrite <- Hpre, last_rev in Hh.
  destruct (Py.lstrip s) as [|d r] eqn:E; [done|].
  injection Hh as <-. by eapply lstrip_head.
Qed.

Lemma strip_infix (s : str) : exists a b, s = a ++ Py.strip s ++ b.
Proof.
  unfold Py.strip, Py.rstrip.
  destruct (lstrip_suffix s) as [a Ha].
  destruct (lstrip_suffix (rev (Py.lstrip s))) as [b Hb].
  exists a, (rev b). rewrite <- rev_app_distr, <- Hb, rev_involutive. done.
Qed.

(** A line of [readlines] has its only newline at its end. *)
Lemma readlines_line (text line : str) :
  line ∈ Py.readlines text ->
  exists b, (line = b ++ [Py.newline] \/ line = b) /\ Py.newline ∉ b.
Proof.
  revert line. induction text as [|c text IH]; intros line; simpl.
  - by intros ?%not_elem_of_nil.
  - destruct (decide (c = Py.newline)) as [->|Hc].
    + intros [->|Hin]%elem_of_cons; [|by apply IH].
      exists []. split; [by left|]. apply not_elem_of_nil.
    + destruct (Py.readlines text) as [|l ls] eqn:E.
      * intros ->%list_elem_of_singleton. exists [c]. split; [by right|].
        intros H%list_elem_of_singleton. congruence.
      * intros [->|Hin]%elem_of_cons.
        -- destruct (IH l) as (b & Hb & Hn); [by left|].
           exists (c :: b). split.
           ++ destruct Hb as [->| ->]; [by left|by right].
           ++ intros [?|?]%elem_of_cons; [congruence|done].
        -- apply IH. by right.
Qed.

Lemma only_at_the_end (x : ascii) (l1 l2 b : str) :
  x ∉ b -> l1 ++ x :: l2 = b ++ [x] -> l2 = [].
Proof.
  revert b. induction l1 as [|z l1 IH]; intros b Hb; simpl.
  - destruct b as [|y b]; simpl; [by intros [= ->]|].
    intros [= <- _]. exfalso. apply Hb. by left.
  - destruct b as [|y b]; simpl.
    + intros [= _ H]. by destruct l1.
    + intros [= _ H]. apply (IH b); [|done].
      intros Hin. apply Hb. by right.
Qed.

Lemma strip_line_no_newline (text line : str) :
  line ∈ Py.readlines text -> Py.newline ∉ Py.strip line.
Proof.
  intros Hin Hnl.
  destruct (readlines_line _ _ Hin) as (b & Hb & Hn).
  destruct (strip_infix line) as (a & c & Ha).
  apply list_elem_of_split in Hnl as (u & v & Hs).
  assert (Hline : line = (a ++ u) ++ Py.newline :: (v ++ c)).
  { rewrite Ha at 1. rewrite Hs. by rewrite <- !app_assoc. }
  destruct Hb as [->| ->].
  - symmetry in Hline. apply only_at_the_end in Hline; [|done].
    apply app_eq_nil in Hline as [-> _].
    assert (Hl : last (Py.strip (b ++ [Py.newline])) = Some Py.newline)
      by (rewrite Hs; apply last_snoc).
    by apply strip_last in Hl.
  - apply Hn. rewrite Hline. apply elem_of_app. right. by left.
Qed.

(** X10: every locator that [_read] returns is not empty, has no white
    space at either end, starts neither with [#] nor with [@] and holds no
    newline. *)
Theorem read_gives_clean_locators (fname text : str) (d : list str) :
  PipelineSpec._read fname text = Return d -> Forall clean_locator d.
Proof.
  unfold PipelineSpec._read. destruct (negb _); [done|]. intros [= <-].
  rewrite read_loop_filter. simpl. apply Forall_forall. intros l Hin.
  apply list_elem_of_filter in Hin as [(Hne & Hh & Ha) Hin].
  apply list_elem_of_fmap in Hin as (line & -> & Hline).
  split; [done|]. split; [intros c rest; apply strip_first|].
  split; [apply strip_last|]. split; [done|]. split; [done|].
  by eapply strip_line_no_newline.
Qed.

Lemma read_as_filter (fname text : str) :
  PipelineSpec._read fname text =
    if existsb (Py.startswith "@EXPLICIT") (Py.readlines text)
    then Return (locator_lines text)
    else Raise (PipelineSpecError ("Invalid spec file: " ++ fname)).
Proof.
  unfold PipelineSpec._read, PipelineSpec.verify.
  rewrite verify_lines_existsb.
  destruct (existsb _ _); simpl; [|done].
  by rewrite read_loop_filter.
Qed.

End CleanLocators.

(** ** Substitution *)
Section ReplaceFacts.

Lemma replace_cases (old new s : str) :
  old <> [] ->
  (s = [] /\ Py.replace s old new = [])
  \/ (exists r, s = old ++ r /\ length r < length s
                /\ Py.replace s old new = new ++ Py.replace r old new)
  \/ (exists c r, s = c :: r /\ Py.replace s old new = c :: Py.replace r old new).
Proof.
  intros Hold. destruct s as [|c r].
  - left. split; [done|]. by apply replace_empty_subject.
  - right. destruct (Py.startswith old (c :: r)) eqn:Hs.
    + left. apply startswith_inv in Hs as [r' Hr]. exists r'. rewrite Hr.
      split; [done|]. split; [|by apply replace_at_occurrence].
      rewrite length_app. destruct old; [done|]. simpl. lia.
    + right. exists c, r. split; [done|]. by apply replace_no_occurrence_here.
Qed.

Lemma replace_same (old : str) (n : nat) :
  forall s : str, length s <= n -> Py.replace s old old = s.
Proof.
  destruct old as [|o old].
  { intros s _. unfold Py.replace. simpl. induction s as [|c s IH]; [done|].
    simpl. by rewrite IH. }
  induction n as [|n IH]; intros s Hn.
  - destruct s; [done|simpl in Hn; lia].
  - destruct (replace_cases (o :: old) (o :: old) s)
      as [[-> ->]|[(r & -> & Hl & ->)|(c & r & -> & ->)]]; [done|done| |].
    + rewrite IH; [done|]. rewrite length_app in *. simpl in *. lia.
    + rewrite IH; [done|]. simpl in Hn. lia.
Qed.

Lemma replace_count_sep (old new : str) (n : nat) :
  "/"%char ∉ old -> "/"%char ∉ new ->
  forall s : str, length s <= n ->
    count_sep (Py.replace s old new) = count_sep s.
Proof.
  intros Hold Hnew. destruct old as [|o old].
  { intros s _. unfold Py.replace. rewrite count_sep_app, count_sep_none by done.
    induction s as [|c s IH]; [done|]. simpl.
    change (c :: new ++ flat_map (fun c0 : ascii => c0 :: new) s)
      with ((c :: new) ++ flat_map (fun c0 : ascii => c0 :: new) s).
    rewrite count_sep_app, !count_sep_cons, (count_sep_none new) by done.
    simpl in IH. lia. }
  induction n as [|n IH]; intros s Hn.
  - destruct s; [done|simpl in Hn; lia].
  - destruct (replace_cases (o :: old) new s)
      as [[-> ->]|[(r & -> & Hl & ->)|(c & r & -> & ->)]]; [done|done| |].
    + rewrite !count_sep_app.
      rewrite (count_sep_none new), (count_sep_none (o :: old)) by done.
      rewrite IH; [done|]. rewrite length_app in *. simpl in *. lia.
    + rewrite !count_sep_cons. rewrite IH; [done|]. simpl in Hn. lia.
Qed.

(** X11: substituting a token by itself changes no record. *)
Theorem replace_by_itself (self : PipelineSpec.t) (old : str) :
  PipelineSpec.replace self old old = self.
Proof.
  destruct self as [fname d]. unfold PipelineSpec.replace. simpl. f_equal.
  pose proof (replace_loop_map old old d []) as H. simpl in H. rewrite H.
  clear H. induction d as [|r d IH]; [done|]. simpl. rewrite IH. f_equal.
  unfold substitute. destruct (decide _); [|done].
  by apply (replace_same old (length r)).
Qed.

(** X12: when neither token holds a separator, [replace] keeps the number
    of separators of every record: a locator that path resolution accepts
    is still accepted after the substitution, and one that it refuses is
    still refused. *)
Theorem replace_keeps_the_depth (self : PipelineSpec.t) (old new : str) :
  "/"%char ∉ old -> "/"%char ∉ new ->
  map count_sep (PipelineSpec.data (PipelineSpec.replace self old new))
  = map count_sep (PipelineSpec.data self).
Proof.
  intros Hold Hnew. unfold PipelineSpec.replace. simpl.
  pose proof (replace_loop_map old new (PipelineSpec.data self) []) as H.
  simpl in H. rewrite H. clear H.
  induction (PipelineSpec.data self) as [|r d IH]; [done|]. simpl.
  rewrite IH. f_equal. unfold substitute. destruct (decide _); [|done].
  by apply (replace_count_sep old new (length r)).
Qed.

End ReplaceFacts.

(** ** Searching *)
Section SearchFacts.

Variable bracket : str -> str -> bool.

Lemma any_suffix_true (f : str -> bool) (name : str) :
  fnmatch.any_suffix f name = true <->
  exists pre x, name = pre ++ x /\ f x = true.
Proof.
  induction name as [|c name IH]; simpl.
  - rewrite orb_false_r. split.
    + intros H. by exists [], [].
    + intros (pre & x & Hn & Hf). symmetry in Hn.
      by apply app_eq_nil in Hn as [_ ->].
  - rewrite orb_true_iff, IH. split.
    + intros [H|(pre & x & -> & Hf)].
      * by exists [], (c :: name).
      * by exists (c :: pre), x.
    + intros (pre & x & Hn & Hf). destruct pre as [|d pre]; simpl in Hn.
      * left. by rewrite Hn.
      * right. injection Hn as _ ->. by exists pre, x.
Qed.

Lemma glob_literal (pat : str) :
  "*"%char ∉ pat -> "?"%char ∉ pat ->
  forall name, fnmatch.glob pat name = bool_decide (name = pat).
Proof.
  induction pat as [|c pat IH]; intros Hs Hq name;
    [by apply bool_decide_ext|].
  apply not_elem_of_cons in Hs as [Hs1 Hs2].
  apply not_elem_of_cons in Hq as [Hq1 Hq2]. simpl.
  rewrite decide_False by done.
  destruct name as [|d name]; [by rewrite bool_decide_eq_false_2|].
  rewrite (bool_decide_eq_false_2 (c = "?"%char)) by done. simpl.
  rewrite IH by done.
  destruct (decide (c = d)) as [->|Hcd].
  - rewrite bool_decide_eq_true_2 by done. simpl.
    apply bool_decide_ext. split; [by intros ->|by intros [= ->]].
  - rewrite (bool_decide_eq_false_2 (c = d)) by done. simpl.
    symmetry. apply bool_decide_eq_false_2. by intros [= -> _].
Qed.

Lemma glob_star_literal (suf name : str) :
  "*"%char ∉ suf -> "?"%char ∉ suf ->
  fnmatch.glob ("*"%char :: suf) name = bool_decide (suf `suffix_of` name).
Proof.
  intros Hs Hq. simpl.
  destruct (bool_decide_reflect (suf `suffix_of` name)) as [[k ->]|Hn].
  - apply any_suffix_true. exists k, suf. split; [done|].
    rewrite glob_literal by done. by apply bool_decide_eq_true_2.
  - apply not_true_is_false. intros (pre & x & -> & Hx)%any_suffix_true.
    rewrite glob_literal in Hx by done. apply bool_decide_eq_true_1 in Hx as ->.
    apply Hn. by exists pre.
Qed.

Lemma search_records_filter (P : str -> Prop) `{!forall r, Decision (P r)}
  (records : list str) (pattern : str) :
  (forall r, fnmatch.fnmatch bracket r pattern = bool_decide (P r)) ->
  search_records bracket records pattern = filter P records.
Proof.
  intros Hm. induction records as [|r records IH]; [done|]. simpl.
  rewrite Hm, IH, filter_cons.
  destruct (decide (P r)) as [Hp|Hp].
  - by rewrite bool_decide_eq_true_2.
  - by rewrite bool_decide_eq_false_2.
Qed.

Lemma search_star (self : PipelineSpec.t) :
  search bracket self "*" = PipelineSpec.data self.
Proof.
  assert (Hm : forall r, fnmatch.fnmatch bracket r "*" = true).
  { intros r. unfold fnmatch.fnmatch. simpl. apply any_suffix_true.
    by exists r, []; rewrite app_nil_r. }
  unfold search. induction (PipelineSpec.data self) as [|r d IH]; [done|].
  cbn [search_records]. by rewrite Hm, IH.
Qed.

(** X13: a search for [*] followed by a text without [*], [?] and [[]
    yields the records that end with this text, in their order; a search
    for [*] alone yields every record. *)
Theorem search_by_suffix (self : PipelineSpec.t) (suf : str) :
  "*"%char ∉ suf -> "?"%char ∉ suf -> "["%char ∉ suf ->
  search bracket self ("*"%char :: suf)
  = filter (fun r => suf `suffix_of` r) (PipelineSpec.data self)
  /\ search bracket self "*" = PipelineSpec.data self.
Proof.
  intros Hs Hq Hb. split.
  - apply search_records_filter. intros r. unfold fnmatch.fnmatch.
    rewrite bool_decide_eq_false_2.
    + by apply glob_star_literal.
    + intros [?|?]%elem_of_cons; done.
  - apply search_star.
Qed.

(** X14: a search for a text without [*], [?] and [[] yields the records
    equal to this text. *)
Theorem search_by_name (self : PipelineSpec.t) (pat : str) :
  "*"%char ∉ pat -> "?"%char ∉ pat -> "["%char ∉ pat ->
  search bracket self pat = filter (fun r => r = pat) (PipelineSpec.data self).
Proof.
  intros Hs Hq Hb. apply search_records_filter. intros r.
  unfold fnmatch.fnmatch. rewrite bool_decide_eq_false_2 by done.
  by apply glob_literal.
Qed.

End SearchFacts.

(** ** Gathering the locators *)
Section MainFacts.

Variable bracket : str -> str -> bool.

Lemma nat_of_ascii_inj (x y : ascii) : nat_of_ascii x = nat_of_ascii y -> x = y.
Proof.
  intros H. rewrite <- (ascii_nat_embedding x), <- (ascii_nat_embedding y).
  by rewrite H.
Qed.

Lemma str_ltb_irrefl (a : str) : Main.str_ltb a a = false.
Proof.
  induction a as [|x a IH]; [done|]. simpl.
  by rewrite Nat.ltb_irrefl.
Qed.

Lemma str_ltb_trans (a : str) :
  forall b c, Main.str_ltb a b = true -> Main.str_ltb b c = true ->
              Main.str_ltb a c = true.
Proof.
  induction a as [|x a IH]; intros [|y b] [|z c]; simpl; try done.
  destruct (Nat.ltb_spec (nat_of_ascii x) (nat_of_ascii y)),
           (Nat.ltb_spec (nat_of_ascii y) (nat_of_ascii x)),
           (Nat.ltb_spec (nat_of_ascii y) (nat_of_ascii z)),
           (Nat.ltb_spec (nat_of_ascii z) (nat_of_ascii y)),
           (Nat.ltb_spec (nat_of_ascii x) (nat_of_ascii z)),
           (Nat.ltb_spec (nat_of_ascii z) (nat_of_ascii x));
    try done; try lia.
  apply IH.
Qed.

Lemma str_ltb_total (a : str) :
  forall b, Main.str_ltb a b = false -> Main.str_ltb b a = false -> a = b.
Proof.
  induction a as [|x a IH]; intros [|y b]; simpl; try done.
  destruct (Nat.ltb_spec (nat_of_ascii x) (nat_of_ascii y)),
           (Nat.ltb_spec (nat_of_ascii y) (nat_of_ascii x));
    try done; try lia.
  intros H1 H2. f_equal; [apply nat_of_ascii_inj; lia|by apply IH].
Qed.

Lemma elem_of_insert_sorted (x y : str) (l : list str) :
  y ∈ Main.insert_sorted x l <-> y = x \/ y ∈ l.
Proof.
  induction l as [|z l IH]; simpl.
  - rewrite list_elem_of_singleton. split; [by left|].
    intros [?|?%not_elem_of_nil]; done.
  - destruct (Main.str_ltb x z) eqn:Hxz.
    + by rewrite elem_of_cons.
    + destruct (Main.str_ltb z x) eqn:Hzx.
      * rewrite !elem_of_cons, IH. tauto.
      * rewrite (str_ltb_total _ _ Hxz Hzx), elem_of_cons. tauto.
Qed.

Lemma insert_sorted_sorted (x : str) (l : list str) :
  StronglySorted (fun a b => Main.str_ltb a b = true) l ->
  StronglySorted (fun a b => Main.str_ltb a b = true) (Main.insert_sorted x l).
Proof.
  induction 1 as [|z l Hs IH Hall]; simpl.
  - repeat constructor.
  - destruct (Main.str_ltb x z) eqn:Hxz.
    + constructor; [by constructor|]. constructor; [done|].
      eapply Forall_impl; [apply Hall|]. intros b Hb. simpl in Hb.
      by eapply str_ltb_trans.
    + destruct (Main.str_ltb z x) eqn:Hzx; [|by constructor].
      constructor; [done|]. apply Forall_forall. intros b Hb.
      apply elem_of_insert_sorted in Hb as [->|Hb]; [done|].
      rewrite Forall_forall in Hall. by apply Hall.
Qed.

(** X15: the list that the command line makes of the gathered locators is
    in strictly ascending order, hence without repetition, and holds
    exactly the locators gathered. *)
Theorem sorted_set_spec (info : list str) :
  StronglySorted (fun a b => Main.str_ltb a b = true) (Main.sorted_set info)
  /\ NoDup (Main.sorted_set info)
  /\ forall x, x ∈ Main.sorted_set info <-> x ∈ info.
Proof.
  assert (Hs : StronglySorted (fun a b => Main.str_ltb a b = true)
                 (Main.sorted_set info)).
  { induction info as [|x info IH]; simpl; [constructor|].
    by apply insert_sorted_sorted. }
  split; [done|]. split.
  - induction Hs as [|z l Hs IH Hall]; [constructor|].
    constructor; [|done]. intros Hin. rewrite Forall_forall in Hall.
    specialize (Hall z Hin). simpl in Hall. by rewrite str_ltb_irrefl in Hall.
  - clear Hs. intros x. induction info as [|y info IH]; simpl; [done|].
    rewrite elem_of_insert_sorted, elem_of_cons, IH. done.
Qed.

Lemma apply_patterns_pairs (patterns : list (list str)) :
  Forall (fun pattern => length pattern = 2) patterns ->
  forall pspec, exists pspec', Main.apply_patterns pspec patterns = Return pspec'.
Proof.
  induction 1 as [|pattern patterns Hl Hall IH]; intros pspec; simpl.
  - by exists pspec.
  - destruct pattern as [|old [|new [|x rest]]]; simpl in Hl; done.
Qed.

(** X16: a spec file without the marker stops the gathering: when the
    files before it are valid and every replace pattern has two values,
    the [PipelineSpecError] of the first invalid file leaves the loop, and
    no locator of any file is given out. *)
Theorem invalid_spec_stops_the_gathering (pre post : list (str * str))
  (spec text search_pattern : str) (patterns : list (list str))
  (info : list str) :
  Forall (fun st : str * str => valid_spec (snd st)) pre ->
  Forall (fun pattern => length pattern = 2) patterns ->
  ~ valid_spec text ->
  Main.gather bracket (pre ++ (spec, text) :: post) patterns search_pattern info
  = Raise (PipelineSpecError ("Invalid spec file: " ++ spec)).
Proof.
  intros Hpre Hpat Hbad. revert info.
  induction Hpre as [|[s t] pre Hv Hpre IH]; intros info;
    cbn [app Main.gather].
  - unfold PipelineSpec.init. rewrite read_as_filter.
    unfold valid_spec in Hbad.
    destruct (existsb _ (Py.readlines text)); [by destruct Hbad|done].
  - unfold PipelineSpec.init. rewrite read_as_filter.
    unfold valid_spec in Hv. cbn [snd] in Hv. rewrite Hv.
    destruct (apply_patterns_pairs patterns Hpat
                {| PipelineSpec.filename := s;
                   PipelineSpec.data := locator_lines t |}) as [p' ->].
    apply IH.
Qed.

(** X17: without replace patterns and with the search pattern [*] (the
    defaults of the command line), valid spec files give the sorted set of
    all their locator lines, or nothing when there is none. *)
Theorem collect_by_default (specs : list (str * str)) :
  Forall (fun st : str * str => valid_spec (snd st)) specs ->
  Main.collect bracket specs [] "*"
  = Return match concat (map (fun st => locator_lines (snd st)) specs) with
           | [] => None
           | x :: info => Some (Main.sorted_set (x :: info))
           end.
Proof.
  intros Hv. unfold Main.collect.
  assert (Hg : forall info,
             Main.gather bracket specs [] "*" info
             = Return (info ++ concat (map (fun st => locator_lines (snd st))
                                         specs))).
  { induction Hv as [|[s t] specs Hv Hall IH]; intros info;
      cbn [Main.gather map concat].
    - by rewrite app_nil_r.
    - unfold PipelineSpec.init. rewrite read_as_filter.
      unfold valid_spec in Hv. cbn [snd] in Hv. rewrite Hv.
      cbn [Main.apply_patterns]. rewrite bool_decide_eq_true_2 by done.
      rewrite search_star. cbn [PipelineSpec.data snd]. rewrite IH.
      by rewrite <- app_assoc. }
  rewrite Hg. cbn [app]. by destruct (concat _).
Qed.

End MainFacts.

(** ** What a run keeps *)
Section RunKeeps.

Variable urlopen : str -> result response.

Lemma mkdir_chain_keeps (chain : list str) :
  forall (f f' : gmap str node) (k : str) (n : node),
    FS.mkdir_chain f chain = Return f' -> f !! k = Some n -> f' !! k = Some n.
Proof.
  induction chain as [|q chain IH]; intros f f' k n; simpl.
  - by intros [= <-].
  - intros H Hk.
    destruct (FS.lookup_node f q) as [[|c]|] eqn:E; [by eapply IH|done|].
    apply (IH _ _ _ _ H). rewrite lookup_insert_ne; [done|].
    intros ->. unfold FS.lookup_node in E.
    destruct (FS.implicit_dir k); [done|]. congruence.
Qed.

Lemma download_keeps (self self' : t) (url k : str) (n : node)
  (w w' : world) (r : result unit) :
  _download urlopen self url w = (r, (self', w')) ->
  fs w !! k = Some n ->
  (forall path filename,
     _determine_local_path self url = Return (path, filename) ->
     k <> os_path.normpath (fullpath_of self path filename)) ->
  fs w' !! k = Some n.
Proof.
  intros H Hn Hk. unfold _download in H.
  destruct (_determine_local_path self url) as [[path filename]|e] eqn:Hp.
  2:{ by injection H as <- <- <-. }
  specialize (Hk path filename eq_refl). cbv zeta in H.
  unfold fullpath_of, dirpath_of in *.
  destruct (check_paths _ _ _) as [e| |fs'] eqn:Hcp.
  - by injection H as <- <- <-.
  - unfold update in H. cbn [fst snd] in H. by injection H as <- <- <-.
  - assert (Hfs' : fs' !! k = Some n).
    { unfold check_paths in Hcp. destruct (negb _).
      - destruct (FS.makedirs _ _) as [f1|e] eqn:Hm; [|done].
        injection Hcp as <-. unfold FS.makedirs in Hm.
        destruct (FS.exists_ _ _); [done|]. by eapply mkdir_chain_keeps.
      - destruct (FS.exists_ _ _); [done|]. by injection Hcp as <-. }
    destruct (try_body _ _ _ _ _) as [exc [s1 w1]] eqn:Ht.
    apply (try_body_frame _ _ _ _ k) in Ht; [|done]. simpl in Ht.
    destruct exc as [reason|]; [destruct (is_HTTPError reason)|];
      unfold update in H; cbn [fst snd] in H; injection H as <- <- <-;
      simpl; congruence.
Qed.

(** X18: a run removes nothing and changes no file or directory that was
    there before, the target files of its locators apart. *)
Theorem run_keeps_what_is_there (self self' : t) (w w' : world)
  (r : result unit) (k : str) (n : node) :
  run urlopen self w = (r, (self', w')) ->
  fs w !! k = Some n ->
  (forall url path filename,
     url ∈ data self ->
     _determine_local_path self url = Return (path, filename) ->
     k <> os_path.normpath (fullpath_of self path filename)) ->
  fs w' !! k = Some n.
Proof.
  unfold run. generalize (data self) as urls. intros urls. revert self w.
  induction urls as [|url rest IH]; intros self w; simpl.
  - by intros [= <- <- <-].
  - intros H Hn Hall.
    destruct (_download urlopen self url w) as [r1 [self1 w1]] eqn:Hd.
    assert (Hk1 : fs w1 !! k = Some n).
    { eapply download_keeps; [apply Hd|done|].
      intros path filename Hp. apply (Hall url); [by left|done]. }
    destruct r1 as [u|e]; [|by injection H as <- <- <-].
    destruct (download_effect _ _ _ _ _ _ _ Hd) as ((_ & Hdest & _) & _).
    apply (IH _ _ H Hk1). intros url' path filename Hin Hp.
    rewrite (determine_local_path_dest self self1) in Hp by done.
    unfold fullpath_of, dirpath_of. rewrite Hdest.
    apply (Hall url' path filename); [by right|done].
Qed.

End RunKeeps.

(** ** The further properties on concrete runs *)

Lemma pkg_url_resolves (self : t) :
  destination self = "/root" ->
  _determine_local_path self pkg_url
  = Return ("/root/z/w" : str, "pkg.tar" : str).
Proof.
  intros H. unfold _determine_local_path. rewrite H. vm_compute. reflexivity.
Qed.

(** The hypothesis of X1 holds for a run that mirrors [pkg_url] and then
    meets it again. *)
Lemma every_locator_is_counted_witness :
  let self := set_verbose true (init [pkg_url; pkg_url] "/root") in
  let res := run net_ok self empty_disk in
  fst res = Return tt
  /\ processed (stats (fst (snd res))) = processed (stats self) + 2
  /\ length (fatal (stats (fst (snd res)))) + success (stats self)
     <= length (fatal (stats self)) + success (stats (fst (snd res))).
Proof.
  intros self res.
  assert (Hr : fst res = Return tt) by (vm_compute; reflexivity).
  split; [exact Hr|].
  apply (every_locator_is_counted net_ok self (fst (snd res)) empty_disk
           (snd (snd res))).
  vm_compute. reflexivity.
Defined.

(** The hypotheses of X2 hold for a run against a server that answers
    404. *)
Lemma failures_are_classified_witness :
  let self := set_verbose true (init [pkg_url] "/root") in
  let res := run net_404 self empty_disk in
  classified (stats self)
  /\ classified (stats (fst (snd res)))
  /\ (forall ue, ue ∈ fail (stats (fst (snd res))) ->
                 ue ∈ fail (stats self) \/ fst ue ∈ data self)
  /\ (forall ue, ue ∈ fatal (stats (fst (snd res))) ->
                 ue ∈ fatal (stats self) \/ fst ue ∈ data self).
Proof.
  intros self res.
  assert (Hc : classified (stats self)) by (split; constructor).
  split; [exact Hc|].
  apply (failures_are_classified net_404 self (fst (snd res)) empty_disk
           (snd (snd res)) (fst res)); [|exact Hc].
  vm_compute. reflexivity.
Defined.

(** The hypotheses of X3 hold for the path [/etc/passwd] and a run that
    mirrors [pkg_url]. *)
Lemma run_touches_only_its_targets_witness :
  let self := set_verbose true (init [pkg_url] "/root") in
  let res := run net_ok self empty_disk in
  fs (snd (snd res)) !! ("/etc/passwd" : str)
  = fs empty_disk !! ("/etc/passwd" : str).
Proof.
  intros self res.
  apply (run_touches_only_its_targets net_ok self (fst (snd res)) empty_disk
           (snd (snd res)) (fst res) "/etc/passwd").
  - vm_compute. reflexivity.
  - intros url path filename Hin Hp.
    apply list_elem_of_singleton in Hin as ->.
    rewrite (pkg_url_resolves self eq_refl) in Hp.
    injection Hp as <- <-. split.
    + intros H. vm_compute in H. congruence.
    + apply (bool_decide_eq_false_1 _). vm_compute. reflexivity.
Defined.

(** The hypotheses of X18 hold for the file [/root/other] and a run that
    mirrors [pkg_url]. *)
Lemma run_keeps_what_is_there_witness :
  let self := set_verbose true (init [pkg_url] "/root") in
  let res := run net_ok self disk_with_other in
  fs disk_with_other !! ("/root/other" : str) = Some (File [Byte.x01])
  /\ fs (snd (snd res)) !! ("/root/other" : str) = Some (File [Byte.x01]).
Proof.
  intros self res.
  assert (Hk : fs disk_with_other !! ("/root/other" : str)
               = Some (File [Byte.x01])) by (vm_compute; reflexivity).
  split; [exact Hk|].
  apply (run_keeps_what_is_there net_ok self (fst (snd res)) disk_with_other
           (snd (snd res)) (fst res) "/root/other" (File [Byte.x01])).
  - vm_compute. reflexivity.
  - exact Hk.
  - intros url path filename Hin Hp.
    apply list_elem_of_singleton in Hin as ->.
    rewrite (pkg_url_resolves self eq_refl) in Hp.
    injection Hp as <- <-.
    intros H. vm_compute in H. congruence.
Defined.

(** The hypotheses of X4 hold for [pkg_url] on a [Backup] without
    [verbose]: the transfer fails, and the locator is skipped afterwards. *)
Lemma opened_file_is_never_fetched_again_witness :
  let self := init [pkg_url] "/root" in
  let path : str := "/root/z/w" in
  let filename : str := "pkg.tar" in
  exists self' w',
    _download net_ok self pkg_url disk_with_dirs = (Return tt, (self', w'))
    /\ forall urlopen2 : str -> result response,
        _download urlopen2 self' pkg_url w'
        = (Return tt, (set_stats (add_skipped (stats self')) self',
                       emit (EvStats (add_skipped (stats self'))) w')).
Proof.
  intros self path filename.
  apply (opened_file_is_never_fetched_again net_ok self pkg_url path filename
           disk_with_dirs (fs disk_with_dirs)
           (<[os_path.normpath (fullpath_of self path filename) := File []]>
              (fs disk_with_dirs))
           {| segments := [[Byte.x00; Byte.x01; Byte.x02]; [Byte.x03]];
              fault := None |}).
  - apply (pkg_url_resolves self eq_refl).
  - apply check_paths_present; vm_compute; reflexivity.
  - reflexivity.
  - apply open_wb_intro; vm_compute; reflexivity.
Defined.

(** The hypotheses of X5 hold when the file [/root/z] stands where
    [pkg_url] needs a directory. *)
Lemma blocked_directory_ends_the_run_witness :
  let self := set_verbose true (init [pkg_url] "/root") in
  FS.exists_ (fs disk_with_blocker) "/root/z/w" = false
  /\ FS.lookup_node (fs disk_with_blocker) "/root/z" = Some (File [])
  /\ run_urls net_ok [pkg_url] self disk_with_blocker
     = (Raise (OSError "Not a directory"), (self, disk_with_blocker)).
Proof.
  intros self. split; [vm_compute; reflexivity|].
  split; [vm_compute; reflexivity|].
  apply (blocked_directory_ends_the_run net_ok self pkg_url "/root/z/w"
           "pkg.tar" "/root/z" [] disk_with_blocker []).
  - apply (pkg_url_resolves self eq_refl).
  - vm_compute. reflexivity.
  - apply (bool_decide_eq_true_1 _). vm_compute. reflexivity.
  - vm_compute. reflexivity.
Defined.

(** The hypotheses of X6 hold for [pkg_url] on a disk that has its file. *)
Lemma existing_file_is_skipped_witness :
  let self := set_verbose true (init [pkg_url] "/root") in
  FS.exists_ (fs disk_with_file) "/root/z/w/pkg.tar" = true
  /\ exists self' w',
    _download net_ok self pkg_url disk_with_file = (Return tt, (self', w'))
    /\ stats self' = add_skipped (stats self)
    /\ fs w' = fs disk_with_file /\ free w' = free disk_with_file
    /\ log w' = log disk_with_file ++ [EvStats (add_skipped (stats self))].
Proof.
  intros self. split; [vm_compute; reflexivity|].
  apply (existing_file_is_skipped net_ok self pkg_url "/root/z/w" "pkg.tar"
           disk_with_file).
  - apply (pkg_url_resolves self eq_refl).
  - vm_compute. reflexivity.
  - vm_compute. reflexivity.
Defined.

(** The hypotheses of X7 hold for two locators on different hosts. *)
Lemma locators_with_the_same_tail_collide_witness :
  _determine_local_path (init [] "/root") "http://a/z/w/pkg.tar"
  = _determine_local_path (init [] "/root") "ftp://b/c/d/z/w/pkg.tar".
Proof.
  apply (locators_with_the_same_tail_collide (init [] "/root")
           "http://a" "ftp://b/c/d" "z" "w" "pkg.tar");
    apply (bool_decide_eq_false_1 _); vm_compute; reflexivity.
Defined.

(** The hypotheses of X8 hold for [pkg_url] under [/root]. *)
Lemma absolute_destination_target_witness :
  let self := init [pkg_url] "/root" in
  let path : str := "/root/z/w" in
  let filename : str := "pkg.tar" in
  dirpath_of self path = path
  /\ fullpath_of self path filename = os_path.join path filename
  /\ Py.startswith "/" path = true.
Proof.
  intros self path filename.
  apply (absolute_destination_target self pkg_url path filename).
  - reflexivity.
  - apply (pkg_url_resolves self eq_refl).
Defined.

(** The hypotheses of X10 hold for [spec_text]. *)
Lemma read_gives_clean_locators_witness :
  PipelineSpec._read "spec.txt" spec_text = Return [pkg_url]
  /\ Forall clean_locator [pkg_url].
Proof.
  assert (Hr : PipelineSpec._read "spec.txt" spec_text = Return [pkg_url])
    by (vm_compute; reflexivity).
  split; [exact Hr|].
  apply (read_gives_clean_locators "spec.txt" spec_text [pkg_url] Hr).
Defined.

(** The hypotheses of X12 hold for the tokens [linux-64] and [osx-64]. *)
Lemma replace_keeps_the_depth_witness :
  let doc := {| PipelineSpec.filename := "spec.txt";
                PipelineSpec.data := ["http://h/ch/linux-64/pkg.tar" : str] |} in
  map count_sep (PipelineSpec.data (PipelineSpec.replace doc "linux-64" "osx-64"))
  = map count_sep (PipelineSpec.data doc).
Proof.
  intros doc.
  apply (replace_keeps_the_depth doc "linux-64" "osx-64");
    apply (bool_decide_eq_false_1 _); vm_compute; reflexivity.
Defined.

(** The hypotheses of X13 hold for the ending [.tar]. *)
Lemma search_by_suffix_witness :
  let doc := {| PipelineSpec.filename := "spec.txt";
                PipelineSpec.data := [pkg_url; "http://x/y/z/w/notes.txt" : str] |} in
  search no_bracket doc ("*"%char :: ".tar")
  = filter (fun r => (".tar" : str) `suffix_of` r) (PipelineSpec.data doc)
  /\ search no_bracket doc "*" = PipelineSpec.data doc.
Proof.
  intros doc.
  apply (search_by_suffix no_bracket doc ".tar");
    apply (bool_decide_eq_false_1 _); vm_compute; reflexivity.
Defined.

(** The hypotheses of X14 hold for the pattern [pkg_url]. *)
Lemma search_by_name_witness :
  let doc := {| PipelineSpec.filename := "spec.txt";
                PipelineSpec.data := [pkg_url; "http://x/y/z/w/notes.txt" : str] |} in
  search no_bracket doc pkg_url
  = filter (fun r => r = pkg_url) (PipelineSpec.data doc).
Proof.
  intros doc.
  apply (search_by_name no_bracket doc pkg_url);
    apply (bool_decide_eq_false_1 _); vm_compute; reflexivity.
Defined.

(** The hypotheses of X16 hold for a file without the marker after a
    valid one. *)
Lemma invalid_spec_stops_the_gathering_witness :
  valid_spec spec_text
  /\ ~ valid_spec pkg_url
  /\ Main.gather no_bracket
       [("a.txt" : str, spec_text); ("b.txt" : str, pkg_url)] [] "*" []
     = Raise (PipelineSpecError ("Invalid spec file: " ++ "b.txt")).
Proof.
  assert (Hv : valid_spec spec_text) by (vm_compute; reflexivity).
  assert (Hn : ~ valid_spec pkg_url)
    by (intros H; vm_compute in H; discriminate H).
  split; [exact Hv|]. split; [exact Hn|].
  apply (invalid_spec_stops_the_gathering no_bracket
           [("a.txt" : str, spec_text)] [] "b.txt" pkg_url "*" [] []).
  - constructor; [exact Hv|constructor].
  - constructor.
  - exact Hn.
Defined.

(** The hypothesis of X17 holds for the file [spec_text]. *)
Lemma collect_by_default_witness :
  valid_spec spec_text
  /\ Main.collect no_bracket [("a.txt" : str, spec_text)] [] "*"
     = Return match concat (map (fun st : str * str => locator_lines (snd st))
                              [("a.txt" : str, spec_text)]) with
              | [] => None
              | x :: info => Some (Main.sorted_set (x :: info))
              end.
Proof.
  assert (Hv : valid_spec spec_text) by (vm_compute; reflexivity).
  split; [exact Hv|].
  apply (collect_by_default no_bracket [("a.txt" : str, spec_text)]).
  constructor; [exact Hv|constructor].
Defined.

(** The hypotheses of X9 hold for [pkg_url] served in two segments. *)
Lemma download_writes_the_body_witness :
  let self := set_verbose true (init [pkg_url] "/root") in
  let path : str := "/root/z/w" in
  let filename : str := "pkg.tar" in
  let data := {| segments := [[Byte.x00; Byte.x01; Byte.x02]; [Byte.x03]];
                 fault := None |} in
  exists self' w',
    _download net_ok self pkg_url disk_with_dirs = (Return tt, (self', w'))
    /\ fs w' !! os_path.normpath (fullpath_of self path filename)
       = Some (File (body data))
    /\ read_ (stats self')
       = (read_ (stats self) + N.of_nat (length (body data)))%N
    /\ written (stats self')
       = (written (stats self) + N.of_nat (length (body data)))%N
    /\ success (stats self') = success (stats self) + 1
    /\ skipped (stats self') = skipped (stats self)
    /\ fail (stats self') = fail (stats self)
    /\ fatal (stats self') = fatal (stats self)
    /\ free w' = (free disk_with_dirs - N.of_nat (length (body data)))%N.
Proof.
  intros self path filename data.
  apply (download_writes_the_body net_ok self pkg_url path filename
           disk_with_dirs (fs disk_with_dirs)
           (<[os_path.normpath (fullpath_of self path filename) := File []]>
              (fs disk_with_dirs))
           data true).
  - reflexivity.
  - reflexivity.
  - apply (pkg_url_resolves self eq_refl).
  - apply check_paths_present; vm_compute; reflexivity.
  - reflexivity.
  - reflexivity.
  - repeat constructor; done.
  - vm_compute. discriminate.
  - apply open_wb_intro; vm_compute; reflexivity.
Defined.
